(** * neon_phal_network_manager: the connectivity bridge and its worker

    A shallow embedding of [neon_phal_network_manager/__init__.py]:
    the [ConnectivityState] enumeration, the [NetworkManager] bridge
    ([get_state], [is_network_connected], [is_internet_connected]), the
    DBus worker thread ([_dbus_thread_proc_async]) and the plugin glue
    ([NetworkManagerEvents.handle_check]).

    The bridge is a two-thread program: one client thread that runs
    [get_state] and a worker thread that owns the bus connection.  Both are
    embedded as control-point machines, one control point per source
    statement that touches the shared object, and composed by an explicit
    scheduler: a schedule is a list of actions, each naming the thread that
    executes its next statement and, for the two awaits on the bus, what the
    bus answers; the passing of time is an action too, which the wait of
    [get_state] bounds by its timeout.  Two threads that call the methods
    of one object at once are outside of this embedding. *)

From Stdlib Require Import ZArith QArith Qround Lia.
From stdpp Require Import base list strings.

Open Scope string_scope.
Open Scope Z_scope.

(** ** Data model *)

(** [class ConnectivityState(IntEnum)], lines 16-38. *)
Inductive ConnectivityState := UNKNOWN | NONE | PORTAL | LIMITED | FULL.

(** The integer each member is (an [IntEnum] member is an [int]). *)
Definition value (s : ConnectivityState) : Z :=
  match s with
  | UNKNOWN => 0
  | NONE => 1
  | PORTAL => 2
  | LIMITED => 3
  | FULL => 4
  end.

(** The members in definition order. *)
Definition members : list ConnectivityState :=
  [UNKNOWN; NONE; PORTAL; LIMITED; FULL].

(** Exceptions (subclasses of [Exception]).  The worker can meet
    [body[0]] on an empty body, [ConnectivityState(x)] on a value that is
    no member, and whatever [bus.connect()] or [bus.call()] raise; the
    client can meet what [Event.wait] raises on a timeout it does not
    accept. *)
Inductive Exn :=
| IndexError
| ValueError
| TypeError
| OverflowError
| BusError (what : string).

(** A computation that returns or raises. *)
Inductive result (A : Type) :=
| Ok (a : A)
| Raise (e : Exn).
Arguments Ok {A} a.
Arguments Raise {A} e.

#[global] Instance result_ret : MRet result := fun A a => Ok a.

#[global] Instance result_bind : MBind result := fun A B k r =>
  match r with
  | Ok a => k a
  | Raise e => Raise e
  end.

(** Values found in the body of a DBus message: an [int], a [bool], a
    finite [float], a [str], or any other object (a list, a dict, [bytes],
    a variant, a float that is not finite). *)
Inductive PyVal :=
| PyInt (n : Z)
| PyBool (b : bool)
| PyFloat (q : Q)
| PyStr (s : string)
| PyOther.

(** The integer that a value is equal to under [==], when there is one:
    [True == 1], [False == 0], and a float equals the integer it has the
    value of. *)
Definition as_integer (x : PyVal) : option Z :=
  match x with
  | PyInt n => Some n
  | PyBool b => Some (Z.b2z b)
  | PyFloat q =>
      if Qeq_bool q (inject_Z (Qfloor q)) then Some (Qfloor q) else None
  | PyStr _ | PyOther => None
  end.

(** [ConnectivityState(x)]: the member whose value equals [x], found by
    value; [ValueError] when there is none. *)
Definition member_of_value (n : Z) : result ConnectivityState :=
  match find (fun s => value s =? n) members with
  | Some s => Ok s
  | None => Raise ValueError
  end.

Definition ConnectivityState_call (x : PyVal) : result ConnectivityState :=
  match as_integer x with
  | Some n => member_of_value n
  | None => Raise ValueError
  end.

(** [body[0]]. *)
Definition subscript0 (body : list PyVal) : result PyVal :=
  match body with
  | [] => Raise IndexError
  | x :: _ => Ok x
  end.

(** [dbus_next.message.MessageType]. *)
Inductive DbusMessageType := METHOD_CALL | METHOD_RETURN | ERROR | SIGNAL.

Definition DbusMessageType_eqb (a b : DbusMessageType) : bool :=
  match a, b with
  | METHOD_CALL, METHOD_CALL | METHOD_RETURN, METHOD_RETURN
  | ERROR, ERROR | SIGNAL, SIGNAL => true
  | _, _ => false
  end.

(** [dbus_next.message.Message], the fields the program sets or reads. *)
Record DbusMessage := {
  destination : string;
  path : string;
  interface : string;
  member : string;
  message_type : DbusMessageType;
  body : list PyVal
}.

(** The message built at lines 133-138; [message_type] and [body] take the
    constructor's defaults. *)
Definition CheckConnectivity : DbusMessage :=
  {| destination := "org.freedesktop.NetworkManager";
     path := "/org/freedesktop/NetworkManager";
     interface := "org.freedesktop.NetworkManager";
     member := "CheckConnectivity";
     message_type := METHOD_CALL;
     body := [] |}.

(** [dbus_next.BusType] and a [MessageBus] object, by how it was built. *)
Inductive BusType := SESSION | SYSTEM.

Record DbusMessageBus := {
  bus_address : option string;
  bus_type : BusType
}.

(** Truth value of [self._dbus_address]: [None] and the empty string are
    false. *)
Definition truthy (a : option string) : bool :=
  match a with
  | Some s => negb (String.eqb s "")
  | None => false
  end.

(** Lines 115-120: the bus object the worker builds when none was given. *)
Definition new_bus (dbus_address : option string) : DbusMessageBus :=
  if truthy dbus_address
  then {| bus_address := dbus_address; bus_type := SESSION |}
  else {| bus_address := None; bus_type := SYSTEM |}.

(** The attributes of a [NetworkManager] object.  [_state] holds the
    integer of the member stored in it; [_state_requested] and
    [_state_ready] are the flags of the two [threading.Event]s;
    [_dbus_thread] is the index of the worker thread, when there is one. *)
Record NetworkManager := {
  _bus : option DbusMessageBus;
  _dbus_address : option string;
  _state : Z;
  _state_requested : bool;
  _state_ready : bool;
  _dbus_thread : option nat
}.

(** [DEFAULT_TIMEOUT = 1.0], line 50. *)
Definition DEFAULT_TIMEOUT : Q := 1.0.

(** What a caller can hand over as [timeout]: [None], a number (an [int]
    or a finite [float]), or an object of another kind (a [str], a
    [list], ...).  The methods pass it on to [Event.wait] as it is. *)
Inductive PyTimeout :=
| TNone
| TNum (seconds : Q)
| TOther.

(** [threading.TIMEOUT_MAX], the largest timeout a lock accepts; its value
    where [long long] has 64 bits. *)
Definition TIMEOUT_MAX : Q := 9223372036.

(** What [threading.Event.wait(timeout)] does when it finds the flag down
    ([Condition.wait] of the standard library): with [None] it blocks
    until the flag is set; with a number it tests [timeout > 0] and, if
    so, blocks for at most that long, else it returns [False] at once; a
    number above [TIMEOUT_MAX] makes the lock raise [OverflowError], and an
    object that has no order with 0 makes the test raise [TypeError].
    When [wait] finds the flag up it returns [True] and does not look at
    the timeout. *)
Inductive WaitMode :=
| Raises (e : Exn)
| Poll
| Block (limit : option Q).

Definition wait_mode (timeout : PyTimeout) : WaitMode :=
  match timeout with
  | TNone => Block None
  | TNum t =>
      if Qle_bool t 0 then Poll
      else if Qle_bool t TIMEOUT_MAX then Block (Some t)
      else Raises OverflowError
  | TOther => Raises TypeError
  end.

(** [NetworkManager.__init__], lines 53-68. *)
Definition NetworkManager_init (dbus_address : option string)
    (bus : option DbusMessageBus) : NetworkManager :=
  {| _bus := bus;
     _dbus_address := dbus_address;
     _state := value UNKNOWN;
     _state_requested := false;
     _state_ready := false;
     _dbus_thread := None |}.

Definition set_state (v : Z) (self : NetworkManager) : NetworkManager :=
  {| _bus := _bus self; _dbus_address := _dbus_address self;
     _state := v;
     _state_requested := _state_requested self;
     _state_ready := _state_ready self;
     _dbus_thread := _dbus_thread self |}.

Definition set_requested (b : bool) (self : NetworkManager) : NetworkManager :=
  {| _bus := _bus self; _dbus_address := _dbus_address self;
     _state := _state self;
     _state_requested := b;
     _state_ready := _state_ready self;
     _dbus_thread := _dbus_thread self |}.

Definition set_ready (b : bool) (self : NetworkManager) : NetworkManager :=
  {| _bus := _bus self; _dbus_address := _dbus_address self;
     _state := _state self;
     _state_requested := _state_requested self;
     _state_ready := b;
     _dbus_thread := _dbus_thread self |}.

Definition set_thread (t : option nat) (self : NetworkManager) : NetworkManager :=
  {| _bus := _bus self; _dbus_address := _dbus_address self;
     _state := _state self;
     _state_requested := _state_requested self;
     _state_ready := _state_ready self;
     _dbus_thread := t |}.

(** ** The classification methods and the plugin glue *)

(** Lines 73-77: the test [is_network_connected] applies to the state that
    [get_state] returned, membership in a set of three members. *)
Definition is_network_connected (state : Z) : bool :=
  existsb (fun s => state =? value s) [PORTAL; LIMITED; FULL].

(** Line 81: the test [is_internet_connected] applies to it. *)
Definition is_internet_connected (state : Z) : bool :=
  state =? value FULL.

(** [mycroft_bus_client.Message]: its type and its context.  [reply] builds
    a message of the given type from the context of the message replied
    to. *)
Record Message := {
  msg_type : string;
  context : list (string * string)
}.

Definition reply (m : Message) (t : string) : Message :=
  {| msg_type := t; context := context m |}.

(** What [handle_check] does to the outside: messages put on the bus and
    the sleep between polls. *)
Inductive Effect :=
| Subscribe (t : string)
| Emit (m : Message)
| Sleep (seconds : Z).

Record NetworkManagerEvents := {
  sleep_time : Z
}.

(** [NetworkManagerEvents.__init__], lines 154-159: the object, the
    [NetworkManager()] it owns and what it does on the bus. *)
Definition NetworkManagerEvents_init :
    NetworkManagerEvents * NetworkManager * list Effect :=
  ({| sleep_time := 60 |},
   NetworkManager_init None None,
   [Subscribe "ovos.phal.internet_check";
    Emit {| msg_type := "ovos.phal.internet_check"; context := [] |}]).

(** [handle_check], lines 163-177, from the state that [get_state()]
    returned. *)
Definition handle_check (self : NetworkManagerEvents) (message : Message)
    (state : Z) : list Effect :=
  (if state =? value FULL then
     [Emit (reply message "ovos.phal.connectivity.internet.connected");
      Emit (reply message "mycroft.internet.connected")]
   else if state >? value NONE then
     [Emit (reply message "ovos.phal.connectivity.network.connected")]
   else
     [Emit (reply message "ovos.phal.connectivity.disconnected");
      Emit (reply message "enclosure.notify.no_internet")])
  ++ [Sleep (sleep_time self); Emit message].

Close Scope string_scope.

(** ** The client thread

    The public methods all run [get_state]; they differ in the timeout they
    pass on and in what they make of the state it returns. *)
Inductive Invocation :=
| call_get_state (timeout : PyTimeout)
| call_is_network_connected (timeout : PyTimeout)
| call_is_internet_connected (timeout : PyTimeout)
| call_handle_check (self : NetworkManagerEvents) (message : Message).

(** The timeout that reaches [get_state]: the caller's, or the default one
    in [handle_check] (line 162).  A call that leaves the argument out is
    the call with [TNum DEFAULT_TIMEOUT], the default of the parameter
    (lines 70, 79 and 83). *)
Definition timeout_of (c : Invocation) : PyTimeout :=
  match c with
  | call_get_state t => t
  | call_is_network_connected t => t
  | call_is_internet_connected t => t
  | call_handle_check _ _ => TNum DEFAULT_TIMEOUT
  end.

(** How a method call ends: with a value, or with an exception that no
    method catches. *)
Inductive Result :=
| RState (state : Z)
| RBool (b : bool)
| RNone (effects : list Effect)
| RRaise (e : Exn).

(** What the method hands back once [get_state] has returned [state]. *)
Definition returns (c : Invocation) (state : Z) : Result :=
  match c with
  | call_get_state _ => RState state
  | call_is_network_connected _ => RBool (is_network_connected state)
  | call_is_internet_connected _ => RBool (is_internet_connected state)
  | call_handle_check self message => RNone (handle_check self message state)
  end.

(** Control points of the client, one per statement of [get_state]; the
    wait of line 89 has two, before the call of [wait] and blocked inside
    it, for [waited] seconds so far.  [signalled] is what [wait] returned,
    which line 89 drops. *)
Inductive ClientPc :=
| CIdle                                     (* outside of any method *)
| CEnsure (c : Invocation)                  (* line 85 *)
| CClear (c : Invocation)                   (* line 87 *)
| CRequest (c : Invocation)                 (* line 88 *)
| CWait (c : Invocation)                    (* line 89 *)
| CBlocked (c : Invocation) (waited : Q)    (* line 89, inside [wait] *)
| CReturn (c : Invocation) (signalled : bool). (* line 91 *)

(** ** The worker thread *)

(** Control points of [_dbus_thread_proc_async]. *)
Inductive WorkerPc :=
| WStart                                        (* line 113 *)
| WWait (bus : DbusMessageBus)                  (* line 129 *)
| WReset (bus : DbusMessageBus)                 (* line 130 *)
| WCall (bus : DbusMessageBus)                  (* line 132 *)
| WDecode (bus : DbusMessageBus) (reply : DbusMessage) (* lines 140-141 *)
| WClear (bus : DbusMessageBus)                 (* line 144 *)
| WSignal (bus : DbusMessageBus)                (* line 145 *)
| WExcept (e : Exn)                             (* line 147 *)
| WFinish                                       (* line 150 *)
| WDone.                                        (* the thread has ended *)

(** What a run leaves behind, oldest first. *)
Inductive Event :=
| EvSpawn (i : nat)
| EvConnect (i : nat) (bus : DbusMessageBus)
| EvRequest (i : nat)
| EvReset (i : nat)
| EvCall (i : nat) (bus : DbusMessageBus) (m : DbusMessage)
| EvReply (i : nat) (r : result DbusMessage)
| EvStore (i : nat) (state : Z)
| EvLog (i : nat) (e : Exn)
| EvWait (signalled : bool)
| EvReturn (c : Invocation) (r : Result).

(** What a worker statement takes from outside: nothing, or the outcome of
    one of the two awaits. *)
Inductive Input :=
| Go
| ConnectResult (r : result ())
| CallResult (r : result DbusMessage).

(** Lines 140-141: the state to store, if any. *)
Definition decode (reply : DbusMessage) : result (option ConnectivityState) :=
  if negb (DbusMessageType_eqb (message_type reply) ERROR) then
    x ← subscript0 (body reply);
    s ← ConnectivityState_call x;
    mret (Some s)
  else mret None.

(** One statement of worker [i].  [None]: the statement cannot run (the
    wait of line 129 with the flag down, a thread that has ended, an input
    that is not the one awaited). *)
Definition worker_step (i : nat) (inp : Input) (self : NetworkManager)
    (w : WorkerPc) : option (NetworkManager * WorkerPc * list Event) :=
  match w, inp with
  | WStart, Go =>
      match _bus self with
      | Some bus => Some (self, WWait bus, [])
      | None => None
      end
  | WStart, ConnectResult r =>
      match _bus self with
      | Some _ => None
      | None =>
          let bus := new_bus (_dbus_address self) in
          Some (self,
                match r with Ok _ => WWait bus | Raise e => WExcept e end,
                [EvConnect i bus])
      end
  | WWait bus, Go =>
      if _state_requested self
      then Some (self, WReset bus, [EvRequest i])
      else None
  | WReset bus, Go =>
      Some (set_state (value UNKNOWN) self, WCall bus, [EvReset i])
  | WCall bus, CallResult r =>
      Some (self,
            match r with Ok reply => WDecode bus reply | Raise e => WExcept e end,
            [EvCall i bus CheckConnectivity; EvReply i r])
  | WDecode bus reply, Go =>
      match decode reply with
      | Ok (Some s) =>
          Some (set_state (value s) self, WClear bus, [EvStore i (value s)])
      | Ok None => Some (self, WClear bus, [])
      | Raise e => Some (self, WExcept e, [])
      end
  | WClear bus, Go => Some (set_requested false self, WSignal bus, [])
  | WSignal bus, Go => Some (set_ready true self, WWait bus, [])
  | WExcept e, Go => Some (self, WFinish, [EvLog i e])
  | WFinish, Go => Some (set_thread None self, WDone, [])
  | _, _ => None
  end.

(** ** The whole program *)

Record System := {
  nm : NetworkManager;
  client : ClientPc;
  workers : list WorkerPc
}.

Inductive Action :=
| Invoke (c : Invocation)      (* the client calls a method *)
| Client                       (* the client runs its next statement *)
| Timeout                      (* the wait of line 89 runs out *)
| Elapse (d : Q)               (* [d] seconds pass *)
| Worker (i : nat) (inp : Input). (* worker [i] runs its next statement *)

(** [_ensure_thread_started], lines 95-101.  With one client thread,
    nothing can change [_dbus_thread] between the test of line 95 and the
    start of line 101 (a worker only ever sets it to [None], as its last
    statement): test, assignment and start are one step. *)
Definition _ensure_thread_started (σ : System) : System * list Event :=
  match _dbus_thread (nm σ) with
  | None =>
      let i := length (workers σ) in
      ({| nm := set_thread (Some i) (nm σ);
          client := client σ;
          workers := workers σ ++ [WStart] |},
       [EvSpawn i])
  | Some _ => (σ, [])
  end.

Definition at_pc (pc : ClientPc) (σ : System) : System :=
  {| nm := nm σ; client := pc; workers := workers σ |}.

Definition with_nm (self : NetworkManager) (σ : System) : System :=
  {| nm := self; client := client σ; workers := workers σ |}.

(** Time passes while the client is blocked in [wait]: the wait lasts
    until the flag is set or the limit is reached, and no longer. *)
Definition blocked_for (c : Invocation) (waited d : Q) (σ : System)
    : option (System * list Event) :=
  if _state_ready (nm σ) then Some (σ, [])
  else
    match wait_mode (timeout_of c) with
    | Block (Some t) =>
        if Qle_bool (waited + d) t
        then Some (at_pc (CBlocked c (waited + d)) σ, [])
        else None
    | _ => Some (at_pc (CBlocked c (waited + d)) σ, [])
    end.

(** One statement of the client, or an action on it.  [get_state] hands
    the timeout to [wait] unchanged (line 89) and has no handler: what
    [wait] raises ends the method. *)
Definition client_step (a : Action) (σ : System) : option (System * list Event) :=
  match client σ, a with
  | CIdle, Invoke c => Some (at_pc (CEnsure c) σ, [])
  | CEnsure c, Client =>
      let '(σ', evs) := _ensure_thread_started σ in
      Some (at_pc (CClear c) σ', evs)
  | CClear c, Client =>
      Some (at_pc (CRequest c) (with_nm (set_ready false (nm σ)) σ), [])
  | CRequest c, Client =>
      Some (at_pc (CWait c) (with_nm (set_requested true (nm σ)) σ), [])
  | CWait c, Client =>
      if _state_ready (nm σ)
      then Some (at_pc (CReturn c true) σ, [EvWait true])
      else
        match wait_mode (timeout_of c) with
        | Raises e => Some (at_pc CIdle σ, [EvReturn c (RRaise e)])
        | Poll => Some (at_pc (CReturn c false) σ, [EvWait false])
        | Block _ => Some (at_pc (CBlocked c 0) σ, [])
        end
  | CBlocked c _, Client =>
      if _state_ready (nm σ)
      then Some (at_pc (CReturn c true) σ, [EvWait true])
      else None
  | CBlocked c waited, Timeout =>
      if _state_ready (nm σ) then None
      else
        match wait_mode (timeout_of c) with
        | Block (Some t) =>
            if Qle_bool t waited
            then Some (at_pc (CReturn c false) σ, [EvWait false])
            else None
        | _ => None
        end
  | CReturn c _, Client =>
      Some (at_pc CIdle σ, [EvReturn c (returns c (_state (nm σ)))])
  | CBlocked c waited, Elapse d =>
      if Qle_bool 0 d then blocked_for c waited d σ else None
  | _, Elapse d => if Qle_bool 0 d then Some (σ, []) else None
  | _, _ => None
  end.

(** Worker [i] has moved to [w'] and left the object as [self]. *)
Definition with_worker (i : nat) (w' : WorkerPc) (self : NetworkManager)
    (σ : System) : System :=
  {| nm := self; client := client σ; workers := <[i := w']> (workers σ) |}.

Definition step (a : Action) (σ : System) : option (System * list Event) :=
  match a with
  | Worker i inp =>
      w ← workers σ !! i;
      '(self, w', evs) ← worker_step i inp (nm σ) w;
      Some (with_worker i w' self σ, evs)
  | _ => client_step a σ
  end.

(** A schedule, run from [σ]: the state reached and the events, or [None]
    when some action of the schedule could not run. *)
Fixpoint run (sched : list Action) (σ : System) : option (System * list Event) :=
  match sched with
  | [] => Some (σ, [])
  | a :: sched' =>
      '(σ1, evs) ← step a σ;
      '(σ2, tr) ← run sched' σ1;
      Some (σ2, evs ++ tr)
  end.

(** The program once [NetworkManager(dbus_address, bus)] is built. *)
Definition init (dbus_address : option string) (bus : option DbusMessageBus)
    : System :=
  {| nm := NetworkManager_init dbus_address bus;
     client := CIdle;
     workers := [] |}.

(** * Vocabulary of the properties *)

(** The first value a method handed back to the client in a trace. *)
Fixpoint first_result (tr : list Event) : option Result :=
  match tr with
  | [] => None
  | EvReturn _ r :: _ => Some r
  | _ :: tr' => first_result tr'
  end.

(** How the calls of a trace ended, in order. *)
Definition results (tr : list Event) : list Result :=
  omap (λ e, match e with EvReturn _ r => Some r | _ => None end) tr.

(** The control point [pc] of a call, as the same point of a call [c]. *)
Definition retag (c : Invocation) (pc : ClientPc) : ClientPc :=
  match pc with
  | CIdle => CIdle
  | CEnsure _ => CEnsure c
  | CClear _ => CClear c
  | CRequest _ => CRequest c
  | CWait _ => CWait c
  | CBlocked _ waited => CBlocked c waited
  | CReturn _ signalled => CReturn c signalled
  end.

(** One action on two programs that differ only in the method the client
    is in, [c1] or [c2], both at control point [pc] of [get_state]: it can
    run in neither, or it runs in both to the same effect, or it is the
    return of [get_state], with the same state of the slot, or [wait]
    raises the same exception in both. *)
Inductive step_sim (c1 c2 : Invocation) (a : Action) (σ : System)
    (pc : ClientPc) : Prop :=
| sim_stuck :
    step a (at_pc (retag c1 pc) σ) = None →
    step a (at_pc (retag c2 pc) σ) = None →
    step_sim c1 c2 a σ pc
| sim_inside σ' pc' evs :
    pc' ≠ CIdle →
    first_result evs = None →
    step a (at_pc (retag c1 pc) σ) = Some (at_pc (retag c1 pc') σ', evs) →
    step a (at_pc (retag c2 pc) σ) = Some (at_pc (retag c2 pc') σ', evs) →
    step_sim c1 c2 a σ pc
| sim_return state :
    step a (at_pc (retag c1 pc) σ) =
      Some (at_pc CIdle σ, [EvReturn c1 (returns c1 state)]) →
    step a (at_pc (retag c2 pc) σ) =
      Some (at_pc CIdle σ, [EvReturn c2 (returns c2 state)]) →
    step_sim c1 c2 a σ pc
| sim_raise e :
    wait_mode (timeout_of c2) = Raises e →
    step a (at_pc (retag c1 pc) σ) =
      Some (at_pc CIdle σ, [EvReturn c1 (RRaise e)]) →
    step a (at_pc (retag c2 pc) σ) =
      Some (at_pc CIdle σ, [EvReturn c2 (RRaise e)]) →
    step_sim c1 c2 a σ pc.

(** How the two calls ended: each with what it makes of one state, or
    both with the exception that [wait] raises on their timeout. *)
Definition same_end (c1 c2 : Invocation) (r1 r2 : Result) : Prop :=
  (∃ state, r1 = returns c1 state ∧ r2 = returns c2 state) ∨
  (∃ e, wait_mode (timeout_of c2) = Raises e ∧
        r1 = RRaise e ∧ r2 = RRaise e).

(** What two such runs are to each other: the call has not ended and
    nothing was handed back, or it has ended, in the same way, and the two
    runs have been one since. *)
Definition run_sim (c1 c2 : Invocation)
    (r1 r2 : option (System * list Event)) : Prop :=
  match r1, r2 with
  | Some (σ1, tr1), Some (σ2, tr2) =>
      (∃ σ' pc', pc' ≠ CIdle ∧ σ1 = at_pc (retag c1 pc') σ' ∧
                 σ2 = at_pc (retag c2 pc') σ' ∧
                 tr1 = tr2 ∧ first_result tr1 = None) ∨
      (σ1 = σ2 ∧ ∃ tr r1 r2 tr',
          first_result tr = None ∧ same_end c1 c2 r1 r2 ∧
          tr1 = tr ++ EvReturn c1 r1 :: tr' ∧
          tr2 = tr ++ EvReturn c2 r2 :: tr')
  | None, None => True
  | _, _ => False
  end.

(** The worker that [_dbus_thread] names, if any, and where it stands. *)
Definition cur (σ : System) : option WorkerPc :=
  i ← _dbus_thread (nm σ); workers σ !! i.

(** Events of the client that are not the start of a thread: what [wait]
    returned and how a method ended. *)
Definition client_event (e : Event) : Prop :=
  match e with
  | EvWait _ | EvReturn _ _ => True
  | _ => False
  end.

(** Every worker thread that [_dbus_thread] does not name has ended. *)
Definition solo (σ : System) : Prop :=
  ∀ j w, _dbus_thread (nm σ) ≠ Some j → workers σ !! j = Some w → w = WDone.

(** Where the current worker stands once worker [w'] is its new control
    point: a thread that has ended has cleared [_dbus_thread]. *)
Definition cur_after (w' : WorkerPc) : option WorkerPc :=
  match w' with
  | WDone => None
  | _ => Some w'
  end.

(** Control points at which the worker has reset the slot, or has never
    written it, and has stored no state since. *)
Definition slot_unknown_at (w : WorkerPc) : bool :=
  match w with
  | WStart | WCall _ | WDecode _ _ | WExcept _ | WFinish => true
  | _ => false
  end.

(** What holds of every state the program reaches: one worker at a time,
    a member in the slot, and UNKNOWN in it whenever there is no worker or
    the worker is at one of the points above. *)
Definition consistent (σ : System) : Prop :=
  solo σ ∧
  (∃ s, _state (nm σ) = value s) ∧
  match _dbus_thread (nm σ) with
  | None => _state (nm σ) = value UNKNOWN
  | Some _ =>
      ∃ w, cur σ = Some w ∧ w ≠ WDone ∧
           (slot_unknown_at w = true → _state (nm σ) = value UNKNOWN)
  end.

(** Events that show a state: it is the integer of a member. *)
Definition event_member (e : Event) : Prop :=
  match e with
  | EvStore _ v => ∃ s, v = value s
  | EvReturn _ (RState v) => ∃ s, v = value s
  | _ => True
  end.

(** The states stored at line 141, in order, and the last of them. *)
Definition stores (tr : list Event) : list Z :=
  omap (λ e, match e with EvStore _ v => Some v | _ => None end) tr.

Definition last_store (tr : list Event) : option Z := last (stores tr).

(** The writes to the slot, in order: the resets of line 130 and the
    states stored at line 141; and what the slot holds after a trace that
    began when the object was built, with UNKNOWN in the slot. *)
Definition writes (tr : list Event) : list Z :=
  omap (λ e, match e with
             | EvReset _ => Some (value UNKNOWN)
             | EvStore _ v => Some v
             | _ => None
             end) tr.

Definition slot_after (tr : list Event) : Z :=
  default (value UNKNOWN) (last (writes tr)).

(** The answers of the bus and the messages sent to it, in order. *)
Definition replies (tr : list Event) : list (result DbusMessage) :=
  omap (λ e, match e with EvReply _ r => Some r | _ => None end) tr.

Definition calls (tr : list Event) : list DbusMessage :=
  omap (λ e, match e with EvCall _ _ m => Some m | _ => None end) tr.

(** The state that lines 130-141 leave in the slot when the call is
    answered [reply]: UNKNOWN from the reset, unless a state was decoded. *)
Definition outcome (reply : DbusMessage) : result Z :=
  o ← decode reply; mret (from_option value (value UNKNOWN) o).

(** Nothing is under way: the client is outside of any method, no request
    is pending, and the worker, if there is one, waits at line 129. *)
Definition quiescent (σ : System) : Prop :=
  client σ = CIdle ∧ _state_requested (nm σ) = false ∧ solo σ ∧
  match _dbus_thread (nm σ) with
  | Some _ => ∃ bus, cur σ = Some (WWait bus)
  | None => True
  end.

(** ** One request, from the call of [get_state] to its return

    [tr] is the trace since the call.  No call was made yet: *)
Definition unanswered (tr : list Event) : Prop :=
  replies tr = [] ∧ calls tr = [].

(** One call was made, it was answered [reply], and the worker has gone
    through the rest of the loop body and waits again. *)
Definition answered (reply : DbusMessage) (σ : System) (tr : list Event)
    : Prop :=
  _state_requested (nm σ) = false ∧ _state_ready (nm σ) = true ∧
  replies tr = [Ok reply] ∧ calls tr = [CheckConnectivity] ∧
  outcome reply = Ok (_state (nm σ)) ∧ ∃ bus, cur σ = Some (WWait bus).

(** The client has not raised the request flag yet. *)
Definition before_request (σ : System) (tr : list Event) : Prop :=
  _state_requested (nm σ) = false ∧ unanswered tr ∧
  first_result tr = None ∧
  match cur σ with
  | None | Some WStart | Some (WWait _) | Some (WExcept _) | Some WFinish =>
      True
  | _ => False
  end.

(** What [wait] returned to the client, call after call. *)
Definition waits (tr : list Event) : list bool :=
  omap (λ e, match e with EvWait b => Some b | _ => None end) tr.

(** Since the call, [wait] has returned only if the client is past
    line 89, and then once. *)
Definition wait_seen (σ : System) (tr : list Event) : Prop :=
  match client σ with
  | CIdle => True
  | CReturn _ signalled => waits tr = [signalled]
  | _ => waits tr = []
  end.

(** The client is at line 89: where the worker can be. *)
Definition in_wait (σ : System) (tr : list Event) : Prop :=
  match cur σ with
  | None | Some (WExcept _) | Some WFinish => _state_ready (nm σ) = false
  | Some WStart =>
      _state_ready (nm σ) = false ∧ _state_requested (nm σ) = true ∧
      unanswered tr
  | Some (WWait _) =>
      (_state_ready (nm σ) = false ∧ _state_requested (nm σ) = true ∧
       unanswered tr) ∨
      ∃ reply, answered reply σ tr
  | Some (WReset _) => _state_ready (nm σ) = false ∧ unanswered tr
  | Some (WCall _) =>
      _state_ready (nm σ) = false ∧ unanswered tr ∧
      _state (nm σ) = value UNKNOWN
  | Some (WDecode _ reply) =>
      _state_ready (nm σ) = false ∧ replies tr = [Ok reply] ∧
      calls tr = [CheckConnectivity] ∧ _state (nm σ) = value UNKNOWN
  | Some (WClear _) =>
      _state_ready (nm σ) = false ∧
      ∃ reply, replies tr = [Ok reply] ∧ calls tr = [CheckConnectivity] ∧
               outcome reply = Ok (_state (nm σ))
  | Some (WSignal _) =>
      _state_ready (nm σ) = false ∧ _state_requested (nm σ) = false ∧
      ∃ reply, replies tr = [Ok reply] ∧ calls tr = [CheckConnectivity] ∧
               outcome reply = Ok (_state (nm σ))
  | Some WDone => False
  end.

(** The invariant of a call [c] that began in a quiescent state and is
    followed by no other call: what holds once [wait] has returned [True]
    holds of the state the worker has left for this call. *)
Definition handshake (c : Invocation) (σ : System) (tr : list Event)
    : Prop :=
  solo σ ∧ wait_seen σ tr ∧
  match client σ with
  | CIdle =>
      waits tr = [true] →
      first_result tr = Some (returns c (_state (nm σ))) ∧
      ∃ reply, answered reply σ tr
  | CEnsure c' | CClear c' => c' = c ∧ before_request σ tr
  | CRequest c' =>
      c' = c ∧ before_request σ tr ∧ _state_ready (nm σ) = false
  | CWait c' | CBlocked c' _ => c' = c ∧ first_result tr = None ∧ in_wait σ tr
  | CReturn c' signalled =>
      c' = c ∧ first_result tr = None ∧
      (signalled = true → ∃ reply, answered reply σ tr)
  end.

(** The schedule makes no call of a method. *)
Definition no_call (a : Action) : Prop :=
  match a with
  | Invoke _ => False
  | _ => True
  end.

(** ** Requests and calls of one worker

    How many times worker [i] found the request flag up at line 129, and
    how many calls it made at line 132. *)
Definition is_request (i : nat) (e : Event) : bool :=
  match e with
  | EvRequest j => Nat.eqb i j
  | _ => false
  end.


Definition requests_of (i : nat) (tr : list Event) : nat :=
  length (List.filter (is_request i) tr).



(** Where worker [i] stands; a thread never started stands where an ended
    one does. *)
Definition worker_at (σ : System) (i : nat) : WorkerPc :=
  default WDone (workers σ !! i).


(** A client that is blocked in [wait] has been so for no longer than
    the limit of its wait. *)
Definition wait_bounded (σ : System) : Prop :=
  match client σ with
  | CBlocked c waited =>
      (0 <= waited)%Q ∧
      ∃ limit, wait_mode (timeout_of c) = Block limit ∧
               ∀ t, limit = Some t → (waited <= t)%Q
  | _ => True
  end.

(** How the calls of a trace ended: each by the exception that [wait]
    raises on its timeout, or with what the method makes of the state
    that the slot held at that moment. *)
Definition ends_with_slot (tr : list Event) : Prop :=
  ∀ tr1 c r tr2,
    tr = tr1 ++ EvReturn c r :: tr2 →
    (∃ e, r = RRaise e ∧ wait_mode (timeout_of c) = Raises e) ∨
    r = returns c (slot_after tr1).

(** Worker [w] has left the loop for good. *)
Definition left_loop (w : WorkerPc) : Prop :=
  match w with
  | WExcept _ | WFinish | WDone => True
  | _ => False
  end.

(** Events of the try body of worker [i]: everything it emits but the log
    of the exception handler. *)
Definition loop_event (i : nat) (e : Event) : bool :=
  match e with
  | EvConnect j _ | EvRequest j | EvReset j | EvCall j _ _ | EvReply j _
  | EvStore j _ =>
      Nat.eqb i j
  | _ => false
  end.

(** The connections opened in a trace. *)
Definition connects (tr : list Event) : list DbusMessageBus :=
  omap (λ e, match e with EvConnect _ b => Some b | _ => None end) tr.

(** * Concrete runs *)

(** A reply of type [t] with body [fields]. *)
Definition reply_of (t : DbusMessageType) (fields : list PyVal) : DbusMessage :=
  {| destination := ""; path := ""; interface := ""; member := "";
     message_type := t; body := fields |}.

(** [get_state] up to its wait: lines 85, 87 and 88. *)
Definition request : list Action := [Client; Client; Client].

(** Worker 0 connects, receives the request, resets the slot, and stands
    at the call. *)
Definition to_the_call : list Action :=
  [Worker 0 (ConnectResult (Ok ())); Worker 0 Go; Worker 0 Go].

(** The same for a worker that is connected already. *)
Definition to_the_call_again : list Action := [Worker 0 Go; Worker 0 Go].

(** The call of worker 0 is answered [r]; the worker decodes, clears the
    request flag and sets the ready flag; the client leaves its wait and
    returns. *)
Definition answer (r : result DbusMessage) : list Action :=
  [Worker 0 (CallResult r); Worker 0 Go; Worker 0 Go; Worker 0 Go;
   Client; Client].

(** A first call of [get_state], served with answer [r]. *)
Definition first_call (r : result DbusMessage) : list Action :=
  Invoke (call_get_state (TNum DEFAULT_TIMEOUT)) :: request ++ to_the_call ++ answer r.

(** A later call, served with answer [r] by the worker of the first. *)
Definition next_call (r : result DbusMessage) : list Action :=
  Invoke (call_get_state (TNum DEFAULT_TIMEOUT)) ::
  request ++ to_the_call_again ++ answer r.

(** The client enters its wait, the default timeout passes, the wait runs
    out and the client returns. *)
Definition time_out : list Action :=
  [Client; Elapse DEFAULT_TIMEOUT; Timeout; Client].

(** A first call answered by a reply that is not of error type and whose
    first field is 7: the worker raises, logs and ends. *)
Definition malformed_reply_run : list Action :=
  Invoke (call_get_state (TNum DEFAULT_TIMEOUT)) :: request ++ to_the_call ++
  [Worker 0 (CallResult (Ok (reply_of METHOD_RETURN [PyInt 7])));
   Worker 0 Go; Worker 0 Go; Worker 0 Go].

(** A bus handed to the constructor. *)
Definition injected_bus : DbusMessageBus :=
  {| bus_address := Some "unix:path=/run/test_bus"; bus_type := SESSION |}.

(** With an injected bus: the call of the first worker raises and the
    worker ends; the client times out; a second [get_state] starts a second
    worker, which takes the injected bus and serves the request. *)
Definition injected_bus_restart_run : list Action :=
  Invoke (call_get_state (TNum DEFAULT_TIMEOUT)) :: request ++
  [Worker 0 Go; Worker 0 Go; Worker 0 Go;
   Worker 0 (CallResult (Raise (BusError "connection closed")));
   Worker 0 Go; Worker 0 Go] ++ time_out ++
  Invoke (call_get_state (TNum DEFAULT_TIMEOUT)) :: request ++
  [Worker 1 Go; Worker 1 Go; Worker 1 Go;
   Worker 1 (CallResult (Ok (reply_of METHOD_RETURN [PyInt 4])));
   Worker 1 Go; Worker 1 Go; Worker 1 Go; Client; Client].

(** A first call during which the connection cannot be made: the worker
    ends and the client times out. *)
Definition failed_connect_run : list Action :=
  Invoke (call_get_state (TNum DEFAULT_TIMEOUT)) :: request ++
  [Worker 0 (ConnectResult (Raise (BusError "no such bus")));
   Worker 0 Go; Worker 0 Go] ++ time_out.

(** The state a schedule leads to from a program built without arguments
    ([None] when the schedule cannot run). *)
Definition state_after (sched : list Action) : option System :=
  fst <$> run sched (init None None).

(** * Vocabulary of the further properties *)

(** The threads started and the exceptions logged in a trace. *)
Definition spawned (tr : list Event) : list nat :=
  omap (λ e, match e with EvSpawn i => Some i | _ => None end) tr.

Definition logged (tr : list Event) : list (nat * Exn) :=
  omap (λ e, match e with EvLog i e => Some (i, e) | _ => None end) tr.

(** A worker that has not logged an exception; one that has not yet taken
    or opened its bus. *)
Definition unlogged (w : WorkerPc) : nat :=
  match w with
  | WFinish | WDone => 0
  | _ => 1
  end.

Definition unconnected (w : WorkerPc) : nat :=
  match w with
  | WStart => 1
  | _ => 0
  end.

(** Threads, logs and connections add up: the threads started are numbered
    in order; each but the current one has logged an exception; and no
    worker has connected twice. *)
Definition accounted (σ : System) (tr : list Event) : Prop :=
  spawned tr = seq 0 (length (workers σ)) ∧
  length (workers σ) =
    (length (logged tr) + from_option unlogged 0 (cur σ))%nat ∧
  (length (connects tr) + from_option unconnected 0 (cur σ) ≤
   length (workers σ))%nat.

(** The bus a [NetworkManager] built from [dbus_address] and [bus] talks
    on, and the bus a worker holds. *)
Definition configured_bus (dbus_address : option string)
    (bus : option DbusMessageBus) : DbusMessageBus :=
  default (new_bus dbus_address) bus.

Definition bus_of (w : WorkerPc) : option DbusMessageBus :=
  match w with
  | WWait b | WReset b | WCall b | WDecode b _ | WClear b | WSignal b =>
      Some b
  | _ => None
  end.

Definition on_configured_bus (σ : System) : Prop :=
  ∀ i w b, workers σ !! i = Some w → bus_of w = Some b →
           b = configured_bus (_dbus_address (nm σ)) (_bus (nm σ)).

(** Events that name a bus: a connection is made without an injected bus
    and to [b]; a call goes to [b]. *)
Definition event_on_bus (injected : bool) (b : DbusMessageBus) (e : Event)
    : Prop :=
  match e with
  | EvConnect _ b' => injected = false ∧ b' = b
  | EvCall _ b' _ => b' = b
  | _ => True
  end.

(** ** Serving a call

    The client is outside of any method and the worker, if there is one,
    waits at line 129 (the request flag may be up or down). *)
Definition ready_to_serve (σ : System) : Prop :=
  client σ = CIdle ∧
  match _dbus_thread (nm σ) with
  | Some i => ∃ bus, workers σ !! i = Some (WWait bus)
  | None => True
  end.

(** The worker that will serve the next call: the current one, or the one
    that [_ensure_thread_started] is going to start. *)
Definition serving_worker (σ : System) : nat :=
  default (length (workers σ)) (_dbus_thread (nm σ)).

(** The first statement of a worker that is yet to be started: it takes
    the injected bus, or connects with success. *)
Definition start_worker (σ : System) : list Action :=
  match _dbus_thread (nm σ) with
  | Some _ => []
  | None =>
      [Worker (length (workers σ))
         (match _bus (nm σ) with
          | Some _ => Go
          | None => ConnectResult (Ok ())
          end)]
  end.

(** One loop body of worker [i], its call answered [r], and the client's
    way out of its wait. *)
Definition answer_by (i : nat) (r : result DbusMessage) : list Action :=
  [Worker i Go; Worker i Go; Worker i (CallResult r);
   Worker i Go; Worker i Go; Worker i Go; Client; Client].

(** A schedule that serves one call [c] from state [σ]: the client goes up
    to its wait, the worker is started if need be, handles the request
    with answer [r], and the client returns. *)
Definition serve (σ : System) (c : Invocation) (r : result DbusMessage)
    : list Action :=
  [Invoke c; Client; Client; Client] ++ start_worker σ ++
  answer_by (serving_worker σ) r.

(** Calls of [get_state] served one after the other, each from the state
    the one before has left; the [i]-th call is answered by the [i]-th
    reply. *)
Fixpoint serve_all (σ : System) (timeout : PyTimeout)
    (replies : list DbusMessage)
    : list Action :=
  match replies with
  | [] => []
  | reply :: replies' =>
      let sched := serve σ (call_get_state timeout) (Ok reply) in
      match run sched σ with
      | Some (σ', _) => sched ++ serve_all σ' timeout replies'
      | None => sched
      end
  end.

(** ** What a thread writes *)

(** The actions on the client: a call, its statements, the end of its
    wait and the passing of time. *)
Definition client_action (a : Action) : bool :=
  match a with
  | Worker _ _ => false
  | _ => true
  end.

(** A flag that is not raised by the step from [before] to [after], and
    one that is not lowered by it. *)
Definition not_raised (before after : bool) : Prop :=
  after = true → before = true.

Definition not_lowered (before after : bool) : Prop :=
  before = true → after = true.

(** A call [c] on whose timeout [wait] blocks, for as long as its wait
    does not run out: [wait] returns [True] or not at all. *)
Definition signalled_only (c : Invocation) (σ : System) (tr : list Event)
    : Prop :=
  match client σ with
  | CIdle => waits tr = [true]
  | CReturn c' signalled => c' = c ∧ signalled = true ∧ waits tr = [true]
  | CEnsure c' | CClear c' | CRequest c' | CWait c' | CBlocked c' _ =>
      c' = c ∧ waits tr = []
  end.

(** An answer that the worker cannot store: the call raised, or the reply
    does not decode. *)
Definition failed_answer (r : result DbusMessage) : Prop :=
  match r with
  | Ok reply => ∃ e, decode reply = Raise e
  | Raise _ => True
  end.

(** ** A signalled wait that returns UNKNOWN

    A first call times out when the worker has just received its request.
    During the second call the worker handles that request, answered
    [reply]: it stores the state and clears the request flag before the
    client raises it again, and sets the ready flag after; the client
    leaves its wait, signalled. *)
Definition late_answer (reply : DbusMessage) : list Action :=
  [Invoke (call_get_state (TNum DEFAULT_TIMEOUT)); Client; Client; Client;
   Worker 0 (ConnectResult (Ok ())); Worker 0 Go;
   Client; Elapse DEFAULT_TIMEOUT; Timeout; Client;
   Invoke (call_get_state (TNum DEFAULT_TIMEOUT)); Client; Client;
   Worker 0 Go; Worker 0 (CallResult (Ok reply)); Worker 0 Go; Worker 0 Go;
   Client;
   Worker 0 Go;
   Client].

(** The worker then finds the request flag up and resets the slot, and
    the client reads the slot. *)
Definition reset_before_read : list Action :=
  [Worker 0 Go; Worker 0 Go; Client].

(** The notifications of [handle_check] that go with the answers of the
    two boolean methods. *)
Definition notifications (message : Message) (internet network : bool)
    : list Effect :=
  if internet then
    [Emit (reply message "ovos.phal.connectivity.internet.connected");
     Emit (reply message "mycroft.internet.connected")]
  else if network then
    [Emit (reply message "ovos.phal.connectivity.network.connected")]
  else
    [Emit (reply message "ovos.phal.connectivity.disconnected");
     Emit (reply message "enclosure.notify.no_internet")].

(** * Properties *)

(** Takes apart the tests that a hypothesis about a step still makes. *)
Ltac case_hyp H :=
  repeat match type of H with
    | context [match ?x with _ => _ end] => destruct x eqn:?
    end.

(** ** Running schedules *)

Lemma run_cons a sched σ σ' tr :
  run (a :: sched) σ = Some (σ', tr) ↔
  ∃ σ1 evs tr', step a σ = Some (σ1, evs) ∧
                run sched σ1 = Some (σ', tr') ∧ tr = evs ++ tr'.
Proof.
  simpl. split.
  - destruct (step a σ) as [[σ1 evs]|] eqn:Hs; simpl; [|done].
    destruct (run sched σ1) as [[σ2 tr']|] eqn:Hr; simpl; [|done].
    intros [= <- <-]. eauto 10.
  - intros (σ1 & evs & tr' & -> & Hr & ->). simpl. by rewrite Hr.
Qed.

Lemma run_app s1 s2 σ :
  run (s1 ++ s2) σ =
  '(σ1, tr1) ← run s1 σ; '(σ2, tr2) ← run s2 σ1; Some (σ2, tr1 ++ tr2).
Proof.
  revert σ. induction s1 as [|a s1 IH]; intros σ; simpl.
  - by destruct (run s2 σ) as [[??]|].
  - destruct (step a σ) as [[σ1 evs]|]; simpl; [|done].
    rewrite IH. destruct (run s1 σ1) as [[σ2 tr1]|]; simpl; [|done].
    destruct (run s2 σ2) as [[σ3 tr2]|]; simpl; [|done].
    by rewrite app_assoc.
Qed.

Lemma run_snoc sched a σ σ' tr :
  run (sched ++ [a]) σ = Some (σ', tr) ↔
  ∃ σ1 tr1 evs, run sched σ = Some (σ1, tr1) ∧
                step a σ1 = Some (σ', evs) ∧ tr = tr1 ++ evs.
Proof.
  rewrite run_app. split.
  - destruct (run sched σ) as [[σ1 tr1]|] eqn:Hr; simpl; [|done].
    destruct (step a σ1) as [[σ2 evs]|] eqn:Hs; simpl; [|done].
    rewrite app_nil_r. intros [= <- <-]. eauto 10.
  - intros (σ1 & tr1 & evs & -> & Hs & ->). simpl. rewrite Hs. simpl.
    by rewrite app_nil_r.
Qed.

(** A worker statement, seen from the whole program. *)
Lemma step_worker i inp σ σ' evs :
  step (Worker i inp) σ = Some (σ', evs) ↔
  ∃ w self w', workers σ !! i = Some w ∧
               worker_step i inp (nm σ) w = Some (self, w', evs) ∧
               σ' = {| nm := self; client := client σ;
                       workers := <[i := w']> (workers σ) |}.
Proof.
  simpl. split.
  - destruct (workers σ !! i) as [w|] eqn:Hw; simpl; [|done].
    destruct (worker_step i inp (nm σ) w) as [[[self w'] evs']|] eqn:Hs;
      simpl; [|done].
    intros [= <- <-]. eauto 10.
  - intros (w & self & w' & -> & Hw & ->). simpl. by rewrite Hw.
Qed.

(** ** Two methods run in lockstep

    Under one schedule, two calls with the same timeout that are at the
    same control point of [get_state] go through the same states and
    events, up to what each hands back when [get_state] returns. *)
Section Lockstep.
Variables c1 c2 : Invocation.
Hypothesis same_timeout : timeout_of c1 = timeout_of c2.

Lemma worker_step_result i inp self w self' w' evs :
  worker_step i inp self w = Some (self', w', evs) → first_result evs = None.
Proof.
  destruct w, inp; simpl; intros H; repeat case_match; by simplify_eq.
Qed.

(** Evaluates a statement of the client once the tests it makes are
    known. *)
Ltac sim_close :=
  simpl; unfold client_step, blocked_for, _ensure_thread_started; simpl;
  rewrite ?same_timeout;
  repeat match goal with
    | H : _state_ready _ = _ |- _ => rewrite H
    | H : wait_mode _ = _ |- _ => rewrite H
    | H : Qle_bool _ _ = _ |- _ => rewrite H
    | H : _dbus_thread _ = _ |- _ => rewrite H
    end;
  done.

Lemma step_retag a σ pc : pc ≠ CIdle → step_sim c1 c2 a σ pc.
Proof.
  intros Hpc. destruct a as [c| | |d|i inp].
  - apply sim_stuck; by destruct pc.
  - destruct pc as [|c|c|c|c|c w|c sig]; [done|..].
    + destruct (_dbus_thread (nm σ)) eqn:Ht.
      * apply (sim_inside _ _ _ _ _ σ (CClear c) []); try done; sim_close.
      * apply (sim_inside _ _ _ _ _
                 {| nm := set_thread (Some (length (workers σ))) (nm σ);
                    client := client σ;
                    workers := workers σ ++ [WStart] |}
                 (CClear c) [EvSpawn (length (workers σ))]); try done;
          sim_close.
    + by apply (sim_inside _ _ _ _ _
                  (with_nm (set_ready false (nm σ)) σ) (CRequest c) []).
    + by apply (sim_inside _ _ _ _ _
                  (with_nm (set_requested true (nm σ)) σ) (CWait c) []).
    + destruct (_state_ready (nm σ)) eqn:Hr.
      * apply (sim_inside _ _ _ _ _ σ (CReturn c true) [EvWait true]);
          try done; sim_close.
      * destruct (wait_mode (timeout_of c2)) as [e| |limit] eqn:Hm.
        -- apply (sim_raise _ _ _ _ _ e); [done|sim_close..].
        -- apply (sim_inside _ _ _ _ _ σ (CReturn c false) [EvWait false]);
             try done; sim_close.
        -- apply (sim_inside _ _ _ _ _ σ (CBlocked c 0) []);
             try done; sim_close.
    + destruct (_state_ready (nm σ)) eqn:Hr.
      * apply (sim_inside _ _ _ _ _ σ (CReturn c true) [EvWait true]);
          try done; sim_close.
      * apply sim_stuck; sim_close.
    + by apply (sim_return _ _ _ _ _ (_state (nm σ))).
  - destruct pc as [|c|c|c|c|c w|c sig]; try done;
      try (apply sim_stuck; done).
    destruct (_state_ready (nm σ)) eqn:Hr; [apply sim_stuck; sim_close|].
    destruct (wait_mode (timeout_of c2)) as [e| |[t|]] eqn:Hm;
      try (apply sim_stuck; sim_close).
    destruct (Qle_bool t w) eqn:Hl; [|apply sim_stuck; sim_close].
    apply (sim_inside _ _ _ _ _ σ (CReturn c false) [EvWait false]);
      try done; sim_close.
  - destruct (Qle_bool 0 d) eqn:Hd;
      [|apply sim_stuck; destruct pc; sim_close].
    destruct pc as [|c|c|c|c|c w|c sig]; [done|..];
      try (match goal with
           | |- step_sim _ _ _ _ ?pc0 =>
               apply (sim_inside _ _ _ _ _ σ pc0 []); try done; sim_close
           end).
    destruct (_state_ready (nm σ)) eqn:Hr.
    { apply (sim_inside _ _ _ _ _ σ (CBlocked c w) []); try done; sim_close. }
    destruct (wait_mode (timeout_of c2)) as [e| |[t|]] eqn:Hm;
      try (apply (sim_inside _ _ _ _ _ σ (CBlocked c (w + d)) []);
           try done; sim_close).
    destruct (Qle_bool (w + d) t) eqn:Hl; [|apply sim_stuck; sim_close].
    apply (sim_inside _ _ _ _ _ σ (CBlocked c (w + d)) []);
      try done; sim_close.
  - destruct (step (Worker i inp) (at_pc (retag c1 pc) σ))
      as [[σ1 evs]|] eqn:H1.
    + apply step_worker in H1 as (w & self & w' & Hw & Hs & ->).
      simpl in *.
      apply (sim_inside _ _ _ _ _
               {| nm := self; client := client σ;
                  workers := <[i:=w']> (workers σ) |} pc evs);
        [done|by eapply worker_step_result|..].
      * apply step_worker. simpl. eauto 10.
      * apply step_worker. simpl. eauto 10.
    + apply sim_stuck; [done|].
      destruct (step (Worker i inp) (at_pc (retag c2 pc) σ))
        as [[σ2 evs]|] eqn:H2; [|done].
      apply step_worker in H2 as (w & self & w' & Hw & Hs & ->).
      simpl in *. assert (step (Worker i inp) (at_pc (retag c1 pc) σ) ≠ None)
        as []; [|done].
      intros HN. simpl in HN. rewrite Hw in HN. simpl in HN.
      rewrite Hs in HN. done.
Qed.

Lemma first_result_inside evs tr :
  first_result evs = None → first_result tr = None →
  first_result (evs ++ tr) = None.
Proof. induction evs as [|[] evs IHe]; simpl in *; auto; done. Qed.

Lemma lockstep sched σ pc :
  pc ≠ CIdle →
  run_sim c1 c2 (run sched (at_pc (retag c1 pc) σ))
          (run sched (at_pc (retag c2 pc) σ)).
Proof.
  revert σ pc. induction sched as [|a sched IH]; intros σ pc Hpc.
  - simpl. left. by exists σ, pc.
  - destruct (step_retag a σ pc Hpc)
      as [H1 H2|σ' pc' evs Hpc' Hev H1 H2|state H1 H2|e Hm H1 H2];
      cbn [run]; rewrite H1, H2; simpl; [done|..].
    + specialize (IH σ' pc' Hpc'). unfold run_sim in IH.
      destruct (run sched (at_pc (retag c1 pc') σ')) as [[σ1 tr1]|],
               (run sched (at_pc (retag c2 pc') σ')) as [[σ2 tr2]|];
        simpl; try done.
      destruct IH as [(σ'' & pc'' & ? & -> & -> & -> & Hn)
                     |(-> & tr & r1 & r2 & tr' & Hn & Hend & -> & ->)].
      * left. exists σ'', pc''. split_and!; try done.
        by apply first_result_inside.
      * right. split; [done|]. exists (evs ++ tr), r1, r2, tr'.
        rewrite <- !app_assoc. split_and!; try done.
        by apply first_result_inside.
    + destruct (run sched (at_pc CIdle σ)) as [[σ1 tr1]|]; simpl; [|done].
      right. split; [done|].
      exists [], (returns c1 state), (returns c2 state), tr1.
      split_and!; try done. left. by exists state.
    + destruct (run sched (at_pc CIdle σ)) as [[σ1 tr1]|]; simpl; [|done].
      right. split; [done|]. exists [], (RRaise e), (RRaise e), tr1.
      split_and!; try done. right. by exists e.
Qed.
End Lockstep.

(** ** The methods built on [get_state] *)

Lemma first_result_app tr tr' :
  first_result (tr ++ tr') =
  match first_result tr with Some r => Some r | None => first_result tr' end.
Proof. induction tr as [|[] tr IH]; simpl; auto. Qed.

(** A method and [get_state] itself, called in the same state and run
    under the same schedule: both runs exist or neither does, and the
    method ends first with [returns] of the state that [get_state] ends
    first with, or both end with the exception that [wait] raises. *)
Lemma method_of_get_state c sched σ :
  match run (Invoke c :: sched) σ,
        run (Invoke (call_get_state (timeout_of c)) :: sched) σ with
  | Some (_, tr1), Some (_, tr2) =>
      match first_result tr1, first_result tr2 with
      | Some r1, Some r2 =>
          (∃ state, r2 = RState state ∧ r1 = returns c state) ∨
          (∃ e, wait_mode (timeout_of c) = Raises e ∧
                r1 = RRaise e ∧ r2 = RRaise e)
      | None, None => True
      | _, _ => False
      end
  | None, None => True
  | _, _ => False
  end.
Proof.
  cbn [run step]. unfold client_step.
  destruct (client σ) eqn:Hc; try done. simpl.
  pose proof (lockstep c (call_get_state (timeout_of c)) eq_refl sched σ
                (CEnsure c) ltac:(done)) as H.
  unfold run_sim in H. simpl in H.
  destruct (run sched (at_pc (CEnsure c) σ)) as [[σ1 tr1]|],
           (run sched (at_pc (CEnsure (call_get_state (timeout_of c))) σ))
             as [[σ2 tr2]|]; simpl; try done.
  destruct H as [(? & ? & ? & ? & ? & -> & Hn)
                |(? & tr & r1 & r2 & tr' & Hn & Hend & -> & ->)].
  - by rewrite Hn.
  - rewrite !first_result_app, Hn. simpl.
    destruct Hend as [(state & -> & ->)|(e & Hm & -> & ->)].
    + left. by exists state.
    + right. by exists e.
Qed.

(** C6. For every timeout, state and schedule, [is_internet_connected]
    and [get_state] called with that timeout return together, and the
    boolean the former returns is true exactly when the state the latter
    returns is FULL; it is false for UNKNOWN, NONE, PORTAL and LIMITED.
    When [get_state] does not return but passes on the exception that
    [wait] raises on the timeout, so does [is_internet_connected]. *)
Theorem is_internet_connected_iff_full (timeout : PyTimeout) (σ : System)
    (sched : list Action) :
  match run (Invoke (call_is_internet_connected timeout) :: sched) σ,
        run (Invoke (call_get_state timeout) :: sched) σ with
  | Some (_, tr1), Some (_, tr2) =>
      match first_result tr1, first_result tr2 with
      | Some r1, Some r2 =>
          (∃ b state, r1 = RBool b ∧ r2 = RState state ∧
             (b = true ↔ state = value FULL) ∧
             (∀ s, In s [UNKNOWN; NONE; PORTAL; LIMITED] →
                   state = value s → b = false)) ∨
          (∃ e, wait_mode timeout = Raises e ∧
                r1 = RRaise e ∧ r2 = RRaise e)
      | None, None => True
      | _, _ => False
      end
  | None, None => True
  | _, _ => False
  end.
Proof.
  pose proof (method_of_get_state (call_is_internet_connected timeout)
                sched σ) as H.
  cbn [timeout_of] in H.
  destruct (run (Invoke (call_is_internet_connected timeout) :: sched) σ)
    as [[σ1 tr1]|],
    (run (Invoke (call_get_state timeout) :: sched) σ) as [[σ2 tr2]|];
    try done.
  destruct (first_result tr1) as [r1|], (first_result tr2) as [r2|];
    try done.
  destruct H as [(state & -> & ->)|H]; [|by right]. simpl. left.
  exists (is_internet_connected state), state.
  unfold is_internet_connected. split_and!; try done.
  - apply Z.eqb_eq.
  - intros s Hs ->. apply Z.eqb_neq.
    simpl in Hs. destruct Hs as [<-|[<-|[<-|[<-|[]]]]]; done.
Qed.

(** C7. For every timeout, state and schedule, [is_network_connected]
    and [get_state] called with that timeout return together, and the
    boolean the former returns is true exactly when the state the latter
    returns is PORTAL, LIMITED or FULL; it is false for UNKNOWN and NONE.
    When [get_state] does not return but passes on the exception that
    [wait] raises on the timeout, so does [is_network_connected]. *)
Theorem is_network_connected_iff_connected (timeout : PyTimeout)
    (σ : System) (sched : list Action) :
  match run (Invoke (call_is_network_connected timeout) :: sched) σ,
        run (Invoke (call_get_state timeout) :: sched) σ with
  | Some (_, tr1), Some (_, tr2) =>
      match first_result tr1, first_result tr2 with
      | Some r1, Some r2 =>
          (∃ b state, r1 = RBool b ∧ r2 = RState state ∧
             (b = true ↔
              state = value PORTAL ∨ state = value LIMITED ∨
              state = value FULL) ∧
             (state = value UNKNOWN ∨ state = value NONE → b = false)) ∨
          (∃ e, wait_mode timeout = Raises e ∧
                r1 = RRaise e ∧ r2 = RRaise e)
      | None, None => True
      | _, _ => False
      end
  | None, None => True
  | _, _ => False
  end.
Proof.
  pose proof (method_of_get_state (call_is_network_connected timeout)
                sched σ) as H.
  cbn [timeout_of] in H.
  destruct (run (Invoke (call_is_network_connected timeout) :: sched) σ)
    as [[σ1 tr1]|],
    (run (Invoke (call_get_state timeout) :: sched) σ) as [[σ2 tr2]|];
    try done.
  destruct (first_result tr1) as [r1|], (first_result tr2) as [r2|];
    try done.
  destruct H as [(state & -> & ->)|H]; [|by right]. simpl. left.
  exists (is_network_connected state), state.
  unfold is_network_connected. simpl. split_and!; try done.
  - rewrite !orb_true_iff, !Z.eqb_eq. simpl. intuition congruence.
  - intros [->| ->]; done.
Qed.

(** C10. A state that [is_internet_connected] accepts is one that
    [is_network_connected] accepts: being FULL implies being one of
    PORTAL, LIMITED, FULL, so the two booleans computed from one observed
    state are never true and false in that order. *)
Theorem internet_connected_implies_network_connected (state : Z) :
  is_internet_connected state = true →
  state = value FULL ∧
  (∃ s, In s [PORTAL; LIMITED; FULL] ∧ state = value s) ∧
  is_network_connected state = true.
Proof.
  unfold is_internet_connected, is_network_connected.
  intros ->%Z.eqb_eq. split_and!; [done| |done].
  exists FULL. simpl. auto.
Qed.

Lemma internet_connected_implies_network_connected_at_full :
  value FULL = value FULL ∧
  (∃ s, In s [PORTAL; LIMITED; FULL] ∧ value FULL = value s) ∧
  is_network_connected (value FULL) = true.
Proof.
  apply (internet_connected_implies_network_connected (value FULL)).
  reflexivity.
Defined.

(** C9. [handle_check] runs [get_state] with the default timeout and,
    from the state it returns: on FULL puts exactly the two "connected"
    messages on the bus; on a state above NONE that is not FULL exactly
    the one "network connected" message; otherwise (UNKNOWN, NONE) the
    "disconnected" message and the "no internet" alert.  After them it
    sleeps for [sleep_time] and puts the message it was called with on the
    bus again; the constructor sets [sleep_time] to 60 and subscribes
    [handle_check] to the type of the message it first emits. *)
Theorem handle_check_notifications (self : NetworkManagerEvents)
    (message : Message) (σ : System) (sched : list Action) :
  (∃ net_manager first,
     NetworkManagerEvents_init =
       ({| sleep_time := 60 |}, net_manager,
        [Subscribe (msg_type first); Emit first])) ∧
  match run (Invoke (call_handle_check self message) :: sched) σ,
        run (Invoke (call_get_state (TNum DEFAULT_TIMEOUT)) :: sched) σ with
  | Some (_, tr1), Some (_, tr2) =>
      match first_result tr1, first_result tr2 with
      | Some r1, Some r2 =>
          ∃ state notifications,
            r2 = RState state ∧
            r1 = RNone (notifications ++
                        [Sleep (sleep_time self); Emit message]) ∧
            (state = value FULL →
             notifications =
               [Emit (reply message
                        "ovos.phal.connectivity.internet.connected");
                Emit (reply message "mycroft.internet.connected")]) ∧
            (value NONE < state → state ≠ value FULL →
             notifications =
               [Emit (reply message
                        "ovos.phal.connectivity.network.connected")]) ∧
            (state ≤ value NONE →
             notifications =
               [Emit (reply message "ovos.phal.connectivity.disconnected");
                Emit (reply message "enclosure.notify.no_internet")])
      | None, None => True
      | _, _ => False
      end
  | None, None => True
  | _, _ => False
  end.
Proof.
  split.
  { by eexists _, {| msg_type := _; context := _ |}. }
  pose proof (method_of_get_state (call_handle_check self message)
                sched σ) as H.
  cbn [timeout_of] in H.
  destruct (run (Invoke (call_handle_check self message) :: sched) σ)
    as [[σ1 tr1]|],
    (run (Invoke (call_get_state (TNum DEFAULT_TIMEOUT)) :: sched) σ)
      as [[σ2 tr2]|]; try done.
  destruct (first_result tr1) as [r1|], (first_result tr2) as [r2|];
    try done.
  destruct H as [(state & -> & ->)|(e & Hm & _)]; [|done].
  simpl. unfold handle_check.
  eexists state, _. split; [done|]. split; [done|].
  destruct (state =? value FULL) eqn:Hf.
  { apply Z.eqb_eq in Hf. simpl in *. split_and!; [done|done|lia]. }
  apply Z.eqb_neq in Hf.
  destruct (state >? value NONE) eqn:Hn.
  - apply Z.gtb_gt in Hn. simpl in *. split_and!; [done|done|lia].
  - rewrite Z.gtb_ltb in Hn. apply Z.ltb_ge in Hn. simpl in *.
    split_and!; [done|lia|done].
Qed.

(** ** One worker at a time

    The client starts a worker only when [_dbus_thread] is [None], and a
    worker sets it to [None] as its last statement: the worker that
    [_dbus_thread] names is the only one that can run. *)

Lemma worker_step_thread j inp self w self' w' evs :
  worker_step j inp self w = Some (self', w', evs) →
  w ≠ WDone ∧
  _dbus_thread self' =
    match w' with WDone => None | _ => _dbus_thread self end.
Proof.
  destruct w, inp; simpl; intros H; repeat case_match; by simplify_eq.
Qed.

Lemma step_worker_cur j inp σ σ' evs :
  solo σ →
  step (Worker j inp) σ = Some (σ', evs) →
  ∃ w w', _dbus_thread (nm σ) = Some j ∧ cur σ = Some w ∧
          worker_step j inp (nm σ) w = Some (nm σ', w', evs) ∧
          client σ' = client σ ∧
          workers σ' = <[j := w']> (workers σ) ∧
          solo σ' ∧ cur σ' = cur_after w'.
Proof.
  intros Hsolo (w & self & w' & Hw & Hs & ->)%step_worker.
  destruct (worker_step_thread _ _ _ _ _ _ _ Hs) as [Hlive Ht].
  assert (_dbus_thread (nm σ) = Some j) as Hj.
  { destruct (decide (_dbus_thread (nm σ) = Some j)) as [|Hne]; [done|].
    by destruct Hlive; eapply Hsolo. }
  exists w, w'. unfold cur. simpl. rewrite Hj. simpl.
  split_and!; try done.
  - intros k wk Hk. simpl in Hk |- *. rewrite Ht in Hk.
    destruct (decide (k = j)) as [->|Hkj].
    + rewrite list_lookup_insert_eq by by eapply lookup_lt_Some.
      intros [= <-]. by destruct w'.
    + rewrite list_lookup_insert_ne by done. apply Hsolo.
      rewrite Hj. congruence.
  - rewrite Ht. destruct w'; simpl; rewrite ?Hj; simpl;
      try (by rewrite list_lookup_insert_eq by by eapply lookup_lt_Some).
    done.
Qed.

Lemma step_client_cur a σ σ' evs :
  solo σ →
  client_step a σ = Some (σ', evs) →
  solo σ' ∧
  (workers σ' = workers σ ∧ _dbus_thread (nm σ') = _dbus_thread (nm σ) ∧
   cur σ' = cur σ ∧ Forall client_event evs ∨
   ∃ c, a = Client ∧ client σ = CEnsure c ∧ _dbus_thread (nm σ) = None ∧
        cur σ' = Some WStart ∧ evs = [EvSpawn (length (workers σ))] ∧
        σ' = {| nm := set_thread (Some (length (workers σ))) (nm σ);
                client := CClear c;
                workers := workers σ ++ [WStart] |}).
Proof.
  intros Hsolo. unfold client_step, blocked_for.
  destruct (client σ) eqn:Hc, a; try done;
    unfold _ensure_thread_started;
    repeat case_match; intros ?; simplify_eq; simpl;
    try (split; [done|left; split_and!; try done; by repeat constructor]).
  split.
  - intros j w Hj. simpl in *.
    destruct (decide (j < length (workers σ))%nat) as [Hlt|Hge].
    + rewrite lookup_app_l by done. apply Hsolo. congruence.
    + rewrite lookup_app_r by lia.
      destruct (j - length (workers σ))%nat eqn:Hd; simpl; [|done].
      destruct Hj. f_equal. lia.
  - right. eexists. split_and!; try done.
    unfold cur. simpl. rewrite lookup_app_r by lia.
    by rewrite Nat.sub_diag.
Qed.

(** ** What every reachable state satisfies *)

Lemma worker_step_slot j inp self w self' w' evs :
  worker_step j inp self w = Some (self', w', evs) →
  (∃ s, _state self = value s) →
  (slot_unknown_at w = true → _state self = value UNKNOWN) →
  (∃ s, _state self' = value s) ∧
  (slot_unknown_at w' = true ∨ w' = WDone → _state self' = value UNKNOWN) ∧
  Forall event_member evs.
Proof.
  intros Hs Hm Hu.
  destruct w, inp; simpl in Hs; repeat case_match; simplify_eq; simpl in *;
    try (split_and!; [done|intros [[=]|[=]]; auto|repeat constructor]);
    try (split_and!; [by eexists|intros [[=]|[=]]; auto
                     |repeat constructor; by eexists]).
  split_and!; [by exists UNKNOWN|done|by repeat constructor].
Qed.

Lemma consistent_init dbus_address bus : consistent (init dbus_address bus).
Proof.
  split_and!; [by intros j w _ [=]|by exists UNKNOWN|done].
Qed.

Lemma client_step_slot a σ σ' evs :
  client_step a σ = Some (σ', evs) →
  _state (nm σ') = _state (nm σ) ∧
  stores evs = [] ∧
  ((∃ s, _state (nm σ) = value s) → Forall event_member evs).
Proof.
  unfold client_step, blocked_for, _ensure_thread_started.
  destruct (client σ) as [|c|c|c|c|c waited|c sig], a; try done;
    repeat case_match; intros ?; simplify_eq; simpl;
    split_and!; try done; intros Hm; repeat constructor.
  by destruct c.
Qed.

Lemma step_cases a σ :
  (∃ j inp, a = Worker j inp) ∨ step a σ = client_step a σ.
Proof. destruct a; eauto. Qed.

Lemma consistent_step a σ σ' evs :
  consistent σ → step a σ = Some (σ', evs) →
  consistent σ' ∧ Forall event_member evs.
Proof.
  intros (Hsolo & Hm & Hc) Hs.
  destruct (step_cases a σ) as [(j & inp & ->)|Hcl].
  - destruct (step_worker_cur _ _ _ _ _ Hsolo Hs)
      as (w & w' & Ht & Hcur & Hw & Hpc & Hws & Hsolo' & Hcur').
    rewrite Ht, Hcur in Hc. destruct Hc as (? & [= <-] & Hlive & Hu).
    destruct (worker_step_slot _ _ _ _ _ _ _ Hw Hm Hu) as (Hm' & Hu' & Hev).
    destruct (worker_step_thread _ _ _ _ _ _ _ Hw) as [_ Ht'].
    split; [|done]. split_and!; [done|done|].
    rewrite Ht', Hcur'. destruct w'; simpl; rewrite ?Ht;
      try (eexists; split_and!; [done|done|auto]).
    auto.
  - rewrite Hcl in Hs. rename Hs into Hs'.
    destruct (client_step_slot _ _ _ _ Hs') as (Hslot & _ & Hev).
    split; [|auto]. rewrite <- Hslot in Hm.
    destruct (step_client_cur _ _ _ _ Hsolo Hs')
      as [Hsolo' [(Hw & Ht & Hcur & _)|(c & _ & Hpc & Ht & Hcur & _ & ->)]].
    + split_and!; [done|done|]. by rewrite Ht, Hcur, Hslot.
    + split_and!; [done|done|]. simpl. exists WStart.
      rewrite Ht in Hc. by rewrite Hcur.
Qed.

Lemma consistent_run sched σ σ' tr :
  consistent σ → run sched σ = Some (σ', tr) →
  consistent σ' ∧ Forall event_member tr.
Proof.
  revert σ tr. induction sched as [|a sched IH]; intros σ tr Hc.
  - by intros [= <- <-].
  - intros (σ1 & evs & tr' & Hs & Hr & ->)%run_cons.
    destruct (consistent_step _ _ _ _ Hc Hs) as [Hc1 Hev].
    destruct (IH _ _ Hc1 Hr) as [Hc' Htr].
    split; [done|]. by apply Forall_app.
Qed.

(** C8. In every state that the program reaches from its construction,
    under any schedule, the slot holds the integer of one of the five
    members UNKNOWN(0), NONE(1), PORTAL(2), LIMITED(3), FULL(4); so does
    every state stored after decoding and every state that [get_state] has
    returned. *)
Theorem state_slot_always_member (dbus_address : option string)
    (bus : option DbusMessageBus) (sched : list Action) (σ : System)
    (tr : list Event) :
  run sched (init dbus_address bus) = Some (σ, tr) →
  (∃ s, In s [UNKNOWN; NONE; PORTAL; LIMITED; FULL] ∧
        _state (nm σ) = value s) ∧
  0 ≤ _state (nm σ) ≤ 4 ∧
  (∀ i v, In (EvStore i v) tr → ∃ s, v = value s) ∧
  (∀ timeout v, In (EvReturn (call_get_state timeout) (RState v)) tr →
                ∃ s, v = value s).
Proof.
  intros Hr.
  destruct (consistent_run _ _ _ _ (consistent_init dbus_address bus) Hr)
    as [(_ & [s Hs] & _) Hev].
  rewrite Forall_forall in Hev.
  refine (conj _ (conj _ (conj _ _))).
  - exists s. split; [|done]. destruct s; simpl; auto 10.
  - rewrite Hs. destruct s; simpl; lia.
  - intros i v Hin. by apply (Hev (EvStore i v)), list_elem_of_In.
  - intros t v Hin.
    by apply (Hev (EvReturn (call_get_state t) (RState v))), list_elem_of_In.
Qed.

(** ** The wait of [get_state] *)

Lemma wait_mode_raises timeout e :
  wait_mode timeout = Raises e →
  (timeout = TOther ∧ e = TypeError) ∨
  (∃ t, timeout = TNum t ∧ (TIMEOUT_MAX < t)%Q ∧ e = OverflowError).
Proof.
  destruct timeout as [|t|]; simpl; [done| |by intros [= <-]; left].
  destruct (Qle_bool t 0); [done|].
  destruct (Qle_bool t TIMEOUT_MAX) eqn:Hmax; [done|].
  intros [= <-]. right. exists t. split_and!; try done.
  apply Qnot_le_lt. intros Hle%Qle_bool_iff. congruence.
Qed.

Lemma wait_mode_limit timeout t :
  wait_mode timeout = Block (Some t) →
  timeout = TNum t ∧ (0 < t)%Q ∧ (t <= TIMEOUT_MAX)%Q.
Proof.
  destruct timeout as [|t'|]; simpl; [done| |done].
  destruct (Qle_bool t' 0) eqn:H0; [done|].
  destruct (Qle_bool t' TIMEOUT_MAX) eqn:Hmax; [|done].
  intros [= <-]. split_and!; [done| |by apply Qle_bool_iff].
  apply Qnot_le_lt. intros Hle%Qle_bool_iff. congruence.
Qed.

Lemma wait_mode_block t limit :
  wait_mode (TNum t) = Block limit → limit = Some t.
Proof.
  simpl. destruct (Qle_bool t 0); [done|].
  destruct (Qle_bool t TIMEOUT_MAX); [|done]. by intros [= <-].
Qed.

Lemma wait_bounded_step a σ σ' evs :
  wait_bounded σ → step a σ = Some (σ', evs) → wait_bounded σ'.
Proof.
  intros Hb Hs. destruct (step_cases a σ) as [(j & inp & ->)|Hcl].
  - apply step_worker in Hs as (w & self & w' & _ & _ & ->). done.
  - rewrite Hcl in Hs. unfold wait_bounded in *.
    unfold client_step, blocked_for, _ensure_thread_started in Hs.
    destruct (client σ) as [|c|c|c|c|c waited|c sig] eqn:Hpc, a; try done;
      case_hyp Hs; simplify_eq; simpl; rewrite ?Hpc; try done;
      try (by destruct Hb as (_ & ? & [=] & _)).
    + split; [apply Qle_refl|]. exists limit. split; [done|].
      intros t ->. apply Qlt_le_weak.
      by destruct (wait_mode_limit _ _ Heqw) as (_ & ? & _).
    + destruct Hb as [Hw _]. apply Qle_bool_iff in Heqb.
      split; [rewrite <- (Qplus_0_r 0); by apply Qplus_le_compat|].
      exists (Some q). split; [done|]. intros t [= <-].
      by apply Qle_bool_iff.
    + destruct Hb as [Hw _]. apply Qle_bool_iff in Heqb.
      split; [rewrite <- (Qplus_0_r 0); by apply Qplus_le_compat|].
      by exists None.
Qed.

Lemma wait_bounded_run sched σ σ' tr :
  wait_bounded σ → run sched σ = Some (σ', tr) → wait_bounded σ'.
Proof.
  revert σ tr. induction sched as [|a sched IH]; intros σ tr Hb.
  - by intros [= <- <-].
  - intros (σ1 & evs & tr' & Hs & Hr & ->)%run_cons.
    eapply IH; [|done]. by eapply wait_bounded_step.
Qed.

(** The one event by which a step ends a call. *)
Lemma step_return a σ σ' evs l c r q :
  step a σ = Some (σ', evs) → evs = l ++ EvReturn c r :: q →
  l = [] ∧ q = [] ∧
  (r = returns c (_state (nm σ)) ∨
   ∃ e, r = RRaise e ∧ wait_mode (timeout_of c) = Raises e).
Proof.
  intros Hs He. destruct (step_cases a σ) as [(j & inp & ->)|Hcl].
  - apply step_worker in Hs as (w & self & w' & _ & Hw & _).
    apply worker_step_result in Hw. subst evs.
    rewrite first_result_app in Hw. by destruct (first_result l).
  - rewrite Hcl in Hs.
    unfold client_step, blocked_for, _ensure_thread_started in Hs.
    destruct (client σ) as [|c'|c'|c'|c'|c' waited|c' sig] eqn:Hpc, a;
      try done; try destruct (_dbus_thread (nm σ)); case_hyp Hs;
      simplify_eq; destruct l as [|? [|? ?]]; simpl in *; simplify_eq;
      eauto 10.
Qed.

(** ** [get_state] returns the slot *)

Lemma stores_app tr tr' : stores (tr ++ tr') = stores tr ++ stores tr'.
Proof. apply omap_app. Qed.

Lemma writes_app tr tr' : writes (tr ++ tr') = writes tr ++ writes tr'.
Proof. apply omap_app. Qed.

Lemma slot_after_snoc tr evs v :
  writes evs = [] ∧ v = slot_after tr ∨ last (writes evs) = Some v →
  slot_after (tr ++ evs) = v.
Proof.
  unfold slot_after. rewrite writes_app.
  intros [[-> ->]|Hl]; [by rewrite app_nil_r|].
  destruct (writes evs) as [|w ws] eqn:Hw using rev_ind; [done|].
  rewrite app_assoc, last_snoc. rewrite last_snoc in Hl. by simplify_eq.
Qed.

Lemma worker_step_writes j inp self w self' w' evs :
  worker_step j inp self w = Some (self', w', evs) →
  writes evs = [] ∧ _state self' = _state self ∨
  last (writes evs) = Some (_state self').
Proof.
  destruct w, inp; simpl; intros H; repeat case_match; simplify_eq; auto.
Qed.

Lemma client_step_writes a σ σ' evs :
  client_step a σ = Some (σ', evs) → writes evs = [].
Proof.
  unfold client_step, blocked_for, _ensure_thread_started.
  destruct (client σ), a; try done; repeat case_match; intros ?;
    by simplify_eq.
Qed.

Lemma slot_after_step a σ σ' evs tr :
  step a σ = Some (σ', evs) → _state (nm σ) = slot_after tr →
  _state (nm σ') = slot_after (tr ++ evs).
Proof.
  intros Hs Hl. symmetry. apply slot_after_snoc.
  destruct (step_cases a σ) as [(j & inp & ->)|Hcl].
  - apply step_worker in Hs as (w & self & w' & _ & Hw & ->). simpl.
    destruct (worker_step_writes _ _ _ _ _ _ _ Hw) as [[-> ->]|?]; auto.
  - rewrite Hcl in Hs. left.
    destruct (client_step_slot _ _ _ _ Hs) as (-> & _ & _).
    split; [|done]. by eapply client_step_writes.
Qed.

Lemma slot_after_run sched σ σ' tr0 tr :
  run sched σ = Some (σ', tr) → _state (nm σ) = slot_after tr0 →
  _state (nm σ') = slot_after (tr0 ++ tr).
Proof.
  revert σ tr0 tr. induction sched as [|a sched IH]; intros σ tr0 tr.
  - intros [= <- <-]. by rewrite app_nil_r.
  - intros (σ1 & evs & tr' & Hs & Hr & ->)%run_cons Hl.
    rewrite app_assoc. eapply IH; [done|]. by eapply slot_after_step.
Qed.

(** The slot holds UNKNOWN or the state stored last. *)
Lemma slot_after_cached tr :
  slot_after tr = value UNKNOWN ∨ last_store tr = Some (slot_after tr).
Proof.
  unfold slot_after, last_store.
  induction tr as [|e tr IH] using rev_ind; [by left|].
  rewrite writes_app, stores_app.
  destruct e; simpl; rewrite ?app_nil_r; try done.
  - left. by rewrite last_snoc.
  - right. by rewrite !last_snoc.
Qed.

Lemma ends_with_slot_run sched dbus_address bus σ tr :
  run sched (init dbus_address bus) = Some (σ, tr) → ends_with_slot tr.
Proof.
  revert σ tr. induction sched as [|a sched IH] using rev_ind; intros σ tr.
  - intros [= <- <-] [|??] ????; done.
  - intros (σ1 & tr1 & evs & Hr & Hs & ->)%run_snoc p c r q Heq.
    apply app_eq_app in Heq as [l [[-> Hl]|[-> Hl]]].
    + destruct l as [|e l].
      * simpl in Hl. rewrite app_nil_r in Hr.
        destruct (step_return _ _ _ _ [] _ _ _ Hs (eq_sym Hl))
          as (_ & _ & [->|(e & -> & Hm)]); [right|left; by exists e].
        f_equal. by apply (slot_after_run _ _ _ [] _ Hr).
      * injection Hl as <- ->. by eapply (IH _ _ Hr).
    + destruct (step_return _ _ _ _ _ _ _ _ Hs Hl)
        as (-> & _ & [->|(e & -> & Hm)]); [right|left; by exists e].
      rewrite app_nil_r. f_equal. by apply (slot_after_run _ _ _ [] _ Hr).
Qed.

(** The way out of a wait that has a limit: the rest of the limit passes,
    the wait runs out, and the method returns the slot. *)
Lemma timed_out_wait σ c waited t :
  client σ = CBlocked c waited → _state_ready (nm σ) = false →
  wait_mode (timeout_of c) = Block (Some t) → (waited <= t)%Q →
  run [Elapse (t - waited); Timeout; Client] σ =
    Some (at_pc CIdle σ,
          [EvWait false; EvReturn c (returns c (_state (nm σ)))]).
Proof.
  intros Hpc Hrd Hm Hle.
  assert (Qle_bool 0 (t - waited) = true) as H0.
  { apply Qle_bool_iff. by apply (proj1 (Qle_minus_iff waited t)). }
  assert (Qle_bool (waited + (t - waited)) t = true) as H1.
  { apply Qle_bool_iff. assert (waited + (t - waited) == t)%Q as -> by ring.
    apply Qle_refl. }
  assert (Qle_bool t (waited + (t - waited)) = true) as H2.
  { apply Qle_bool_iff. assert (waited + (t - waited) == t)%Q as -> by ring.
    apply Qle_refl. }
  cbn [run step]. unfold client_step, blocked_for.
  rewrite Hpc, H0, Hrd, Hm, H1. simpl. by rewrite Hrd, Hm, H2.
Qed.

(** C2, as amended. [get_state] ends by an exception only when [wait]
    rejects its timeout: an object that is neither [None] nor a number
    ([TypeError]) or a number above [TIMEOUT_MAX] ([OverflowError]); with
    [None] or a number up to [TIMEOUT_MAX] it never raises.  In every state
    the program reaches, a call that is blocked in the wait of line 89 has
    been so for no longer than its timeout, which is then a positive
    number, or [None]; for [handle_check], which leaves the timeout out,
    no longer than 1, the default.  Every value that [get_state] has
    returned is the state that was in the slot at that moment, whether
    [wait] had returned [True] or [False]: the state written last, which
    is UNKNOWN or the state stored last, and UNKNOWN when none was ever
    stored.  A blocked call whose flag is down leaves its wait when the
    rest of the timeout has passed, and returns the slot; with [None] as
    timeout the wait does not run out. *)
Theorem get_state_returns_slot (dbus_address : option string)
    (bus : option DbusMessageBus) (sched : list Action) (σ : System)
    (tr : list Event) :
  run sched (init dbus_address bus) = Some (σ, tr) →
  (∀ c e, In (EvReturn c (RRaise e)) tr →
     (timeout_of c = TOther ∧ e = TypeError) ∨
     (∃ t, timeout_of c = TNum t ∧ (TIMEOUT_MAX < t)%Q ∧
           e = OverflowError)) ∧
  (∀ c waited,
     client σ = CBlocked c waited →
     (0 <= waited)%Q ∧
     match timeout_of c with
     | TNum t => (0 < t)%Q ∧ (t <= TIMEOUT_MAX)%Q ∧ (waited <= t)%Q
     | TNone => True
     | TOther => False
     end ∧
     (∀ self message, c = call_handle_check self message →
                      (waited <= 1)%Q)) ∧
  (∀ tr1 timeout r tr2,
     tr = tr1 ++ EvReturn (call_get_state timeout) r :: tr2 →
     (∃ e, r = RRaise e) ∨
     (r = RState (slot_after tr1) ∧
      (slot_after tr1 = value UNKNOWN ∨
       last_store tr1 = Some (slot_after tr1)) ∧
      (stores tr1 = [] → slot_after tr1 = value UNKNOWN))) ∧
  (∀ c waited,
     client σ = CBlocked c waited → _state_ready (nm σ) = false →
     match timeout_of c with
     | TNum t =>
         run [Elapse (t - waited); Timeout; Client] σ =
           Some (at_pc CIdle σ,
                 [EvWait false; EvReturn c (returns c (_state (nm σ)))])
     | _ => step Timeout σ = None
     end).
Proof.
  intros Hr.
  assert (wait_bounded σ) as Hb.
  { eapply wait_bounded_run; [|done]. done. }
  split_and!.
  - intros c e Hin. apply list_elem_of_In, list_elem_of_split in Hin
      as (tr1 & tr2 & Heq).
    destruct (ends_with_slot_run _ _ _ _ _ Hr _ _ _ _ Heq)
      as [(e' & [= <-] & Hm)|Hv].
    + by apply wait_mode_raises.
    + by destruct c.
  - intros c waited Hpc. unfold wait_bounded in Hb. rewrite Hpc in Hb.
    destruct Hb as (H0 & limit & Hm & Hle). split; [done|].
    split.
    + destruct (timeout_of c) as [|t|] eqn:Ht; [done| |done].
      pose proof (wait_mode_block _ _ Hm) as ->.
      destruct (wait_mode_limit _ _ Hm) as (_ & Hpos & Hmax).
      split_and!; [done|done|by apply Hle].
    + intros self message ->. simpl in Hm.
      injection Hm as <-.
      apply (Qle_trans _ DEFAULT_TIMEOUT); [by apply Hle|].
      by apply Qle_bool_iff.
  - intros tr1 timeout r tr2 Heq.
    destruct (ends_with_slot_run _ _ _ _ _ Hr _ _ _ _ Heq)
      as [(e & -> & _)| ->]; [left; by exists e|right].
    split; [done|]. pose proof (slot_after_cached tr1) as Hc.
    split; [done|]. intros Hn. destruct Hc as [|Hv]; [done|].
    unfold last_store in Hv. by rewrite Hn in Hv.
  - intros c waited Hpc Hrd. unfold wait_bounded in Hb. rewrite Hpc in Hb.
    destruct Hb as (H0 & limit & Hm & Hle).
    destruct (timeout_of c) as [|t|] eqn:Ht.
    + simpl. unfold client_step. by rewrite Hpc, Hrd, Ht.
    + pose proof (wait_mode_block _ _ Hm) as ->.
      apply timed_out_wait; try done; [by rewrite Ht|by apply Hle].
    + simpl. unfold client_step. by rewrite Hpc, Hrd, Ht.
Qed.

(** ** The request/result handshake *)

Lemma replies_app tr tr' : replies (tr ++ tr') = replies tr ++ replies tr'.
Proof. apply omap_app. Qed.

Lemma calls_app tr tr' : calls (tr ++ tr') = calls tr ++ calls tr'.
Proof. apply omap_app. Qed.

Lemma waits_app tr tr' : waits (tr ++ tr') = waits tr ++ waits tr'.
Proof. apply omap_app. Qed.

Lemma worker_step_waits j inp self w self' w' evs :
  worker_step j inp self w = Some (self', w', evs) → waits evs = [].
Proof.
  destruct w, inp; simpl; intros H; repeat case_match; by simplify_eq.
Qed.

Lemma handshake_begin c σ :
  quiescent σ → handshake c (at_pc (CEnsure c) σ) [].
Proof.
  intros (Hpc & Hrq & Hsolo & Hw). split; [done|]. split; [done|]. simpl.
  split; [done|]. split_and!; try done.
  unfold cur in *. simpl. destruct (_dbus_thread (nm σ)); simpl in *; [|done].
  destruct Hw as [bus Hw]. by rewrite Hw.
Qed.

Lemma outcome_some reply s :
  decode reply = Ok (Some s) → outcome reply = Ok (value s).
Proof. unfold outcome. by intros ->. Qed.

Lemma outcome_none reply :
  decode reply = Ok None → outcome reply = Ok (value UNKNOWN).
Proof. unfold outcome. by intros ->. Qed.

(** Closes the cases of the invariant: take the hypotheses apart, rewrite
    the trace facts, then build the goal constructor by constructor. *)
Ltac hs_goal :=
  lazymatch goal with
  | |- _ ∧ _ => split; hs_goal
  | |- ∃ _, _ => eexists; hs_goal
  | |- _ ∨ _ => first [left; solve [hs_goal] | right; solve [hs_goal]]
  | |- _ → _ =>
      let H := fresh in intros H; simpl in H; first [done | hs_goal]
  | |- _ => first [done | by apply outcome_some | by apply outcome_none]
  end.

Ltac hs_solve :=
  repeat match goal with
    | H : _ ∧ _ |- _ => destruct H
    | H : ∃ _, _ |- _ => destruct H
    | H : _ ∨ _ |- _ => destruct H
    | H : False |- _ => destruct H
    | H : true = true → _ |- _ => specialize (H eq_refl)
    | H : [true] = [true] → _ |- _ => specialize (H eq_refl)
    end;
  simplify_eq;
  repeat match goal with
    | H : replies _ = _ |- _ => rewrite H
    | H : calls _ = _ |- _ => rewrite H
    | H : first_result _ = _ |- _ => rewrite H
    | H : waits _ = _ |- _ => rewrite H
    | H : _state _ = _ |- _ => rewrite H
    end;
  simpl; rewrite ?app_nil_r; hs_goal.

Lemma handshake_worker_step c j inp σ σ' evs tr :
  handshake c σ tr →
  step (Worker j inp) σ = Some (σ', evs) →
  handshake c σ' (tr ++ evs).
Proof.
  intros (Hsolo & Hseen & Hh) Hs.
  destruct (step_worker_cur _ _ _ _ _ Hsolo Hs)
    as (w & w' & Ht & Hcur & Hw & Hpc & Hws & Hsolo' & Hcur').
  pose proof (worker_step_waits _ _ _ _ _ _ _ Hw) as Hwt.
  split; [done|]. unfold wait_seen in *. rewrite Hpc. clear Hs Hsolo Hsolo' Hws.
  unfold before_request, in_wait, answered, unanswered in *.
  rewrite waits_app, Hwt, app_nil_r.
  rewrite replies_app, calls_app, first_result_app, Hcur'.
  rewrite Hcur in Hh. clear Hwt.
  destruct σ' as [self' pc' ws']. simpl in *. subst pc'.
  destruct (client σ) as [|c'|c'|c'|c'|c' waited|c' [|]];
    (split; [done|]); try (intros Hsig; specialize (Hh Hsig));
    destruct w, inp; simpl in Hw; try done; case_hyp Hw; simplify_eq;
    simpl in *; hs_solve.
Qed.

Lemma handshake_client_step c a σ σ' evs tr :
  handshake c σ tr → no_call a →
  client_step a σ = Some (σ', evs) →
  handshake c σ' (tr ++ evs).
Proof.
  intros Hinv Ha Hs.
  assert ((∃ d, a = Elapse d) ∨ ∀ d, a ≠ Elapse d) as [[d ->]|Hne]
    by (destruct a; eauto).
  { unfold client_step, blocked_for in Hs.
    destruct (client σ) eqn:Hpc; case_hyp Hs; simplify_eq;
      rewrite app_nil_r; try done.
    all: unfold handshake, wait_seen, in_wait, answered, cur, solo in *;
      simpl; by rewrite Hpc in Hinv. }
  destruct Hinv as (Hsolo & Hseen & Hh).
  destruct (step_client_cur _ _ _ _ Hsolo Hs) as [Hsolo' Hc].
  split; [done|]. clear Hsolo'.
  unfold client_step, blocked_for, _ensure_thread_started in Hs.
  unfold wait_seen, before_request, in_wait, answered, unanswered in *.
  rewrite waits_app, replies_app, calls_app, first_result_app.
  destruct (client σ) as [|c'|c'|c'|c'|c' waited|c' [|]] eqn:Hpc, a;
    try done; try (by edestruct Hne);
    try destruct (_dbus_thread (nm σ)) eqn:Hth;
    case_hyp Hs; simplify_eq;
    destruct Hc as [(_ & _ & Hcur & _)|(? & _ & ? & ? & Hcur & _ & ?)];
    simplify_eq; rewrite ?Hpc; try rewrite Hcur; simpl in *;
    try (destruct (cur σ) as [[]|] eqn:?); simpl in *; hs_solve.
Qed.

Lemma handshake_run c sched σ σ' tr0 tr :
  handshake c σ tr0 →
  Forall no_call sched →
  run sched σ = Some (σ', tr) →
  handshake c σ' (tr0 ++ tr).
Proof.
  revert σ tr0 tr. induction sched as [|a sched IH]; intros σ tr0 tr Hh Hok.
  - intros [= <- <-]. by rewrite app_nil_r.
  - intros (σ1 & evs & tr' & Hs & Hr & ->)%run_cons.
    apply Forall_cons in Hok as [Ha Hok].
    rewrite app_assoc. eapply IH; [|done|done].
    destruct (step_cases a σ) as [(j & inp & ->)|Hcl].
    + by eapply handshake_worker_step.
    + rewrite Hcl in Hs. by eapply handshake_client_step.
Qed.

(** A call made in a quiescent state, followed by no other call, that has
    returned after [wait] returned [True]: the worker made one call, it
    was answered, the slot holds the outcome of the answer, the method was
    handed that state, and the program is quiescent again, with the
    request flag down and the ready flag up. *)
Lemma clean_handshake c sched σ σ' tr :
  quiescent σ →
  Forall no_call sched →
  run (Invoke c :: sched) σ = Some (σ', tr) →
  client σ' = CIdle → waits tr = [true] →
  ∃ reply,
    replies tr = [Ok reply] ∧ calls tr = [CheckConnectivity] ∧
    outcome reply = Ok (_state (nm σ')) ∧
    first_result tr = Some (returns c (_state (nm σ'))) ∧
    _state_requested (nm σ') = false ∧ _state_ready (nm σ') = true ∧
    quiescent σ'.
Proof.
  intros Hq Hok (σ1 & evs & tr' & Hs & Hr & ->)%run_cons Hpc Hsig.
  assert (σ1 = at_pc (CEnsure c) σ ∧ evs = []) as [-> ->].
  { destruct Hq as [Hq _]. simpl in Hs. unfold client_step in Hs.
    rewrite Hq in Hs. by simplify_eq. }
  pose proof (handshake_run c _ _ _ [] _ (handshake_begin c σ Hq) Hok Hr)
    as (Hsolo & _ & Hh).
  rewrite Hpc in Hh. simpl in *.
  destruct (Hh Hsig)
    as (Hres & reply & Hrq & Hrd & Hrep & Hcalls & Hout & bus & Hcur).
  exists reply. split_and!; try done.
  split_and!; try done.
  destruct (_dbus_thread (nm σ')); [by exists bus|done].
Qed.


(** ** One call for each request *)







(** ** The worker's loop body *)

Lemma member_of_value_range n :
  0 ≤ n ≤ 4 → ∃ s, value s = n ∧ member_of_value n = Ok s.
Proof.
  intros Hn.
  assert (n = 0 ∨ n = 1 ∨ n = 2 ∨ n = 3 ∨ n = 4) as Hc by lia.
  destruct Hc as [->|[->|[->|[->| ->]]]];
    [by exists UNKNOWN|by exists NONE|by exists PORTAL
    |by exists LIMITED|by exists FULL].
Qed.

Lemma member_of_value_outside n :
  ¬ 0 ≤ n ≤ 4 → member_of_value n = Raise ValueError.
Proof.
  intros Hn. unfold member_of_value, members, find, value.
  repeat (destruct (_ =? n) eqn:He; [apply Z.eqb_eq in He; lia|clear He]).
  done.
Qed.


Lemma decode_error reply : message_type reply = ERROR → decode reply = Ok None.
Proof. unfold decode. by intros ->. Qed.



Lemma run_worker_at i inp sched σ w self w' evs :
  workers σ !! i = Some w →
  worker_step i inp (nm σ) w = Some (self, w', evs) →
  run (Worker i inp :: sched) σ =
    '(σ2, tr) ← run sched (with_worker i w' self σ); Some (σ2, evs ++ tr).
Proof. intros Hw Hs. simpl. rewrite Hw. simpl. by rewrite Hs. Qed.

Lemma with_worker_lookup i w w' self σ :
  workers σ !! i = Some w →
  workers (with_worker i w' self σ) !! i = Some w'.
Proof.
  intros H. simpl. apply list_lookup_insert_eq. by eapply lookup_lt_Some.
Qed.

(** Runs the next statement of a worker whose control point is known;
    [tac] prepares the statement for evaluation. *)
Tactic Notation "worker_go" "by" tactic(tac) :=
  erewrite run_worker_at;
    [|by eauto using with_worker_lookup|simpl; tac; reflexivity].

Tactic Notation "worker_go" := worker_go by idtac.

Lemma consistent_slot σ i w :
  consistent σ → workers σ !! i = Some w → slot_unknown_at w = true →
  _state (nm σ) = value UNKNOWN ∧ _dbus_thread (nm σ) = Some i.
Proof.
  intros (Hsolo & _ & Hc) Hw Hu.
  assert (_dbus_thread (nm σ) = Some i) as Ht.
  { destruct (decide (_dbus_thread (nm σ) = Some i)) as [|Hne]; [done|].
    rewrite (Hsolo _ _ Hne Hw) in Hu. done. }
  rewrite Ht in Hc. unfold cur in Hc. rewrite Ht in Hc. simpl in Hc.
  rewrite Hw in Hc. destruct Hc as (? & [= <-] & _ & Hc). auto.
Qed.



Lemma error_reply_iteration σ i bus' reply :
  workers σ !! i = Some (WCall bus') →
  message_type reply = ERROR →
  ∃ σ',
    run [Worker i (CallResult (Ok reply)); Worker i Go; Worker i Go;
         Worker i Go] σ =
      Some (σ', [EvCall i bus' CheckConnectivity; EvReply i (Ok reply)]) ∧
    _state (nm σ') = _state (nm σ) ∧
    _state_requested (nm σ') = false ∧ _state_ready (nm σ') = true ∧
    workers σ' !! i = Some (WWait bus') ∧
    _dbus_thread (nm σ') = _dbus_thread (nm σ) ∧ client σ' = client σ.
Proof.
  intros Hw Ht. eexists.
  worker_go. worker_go by rewrite (decode_error _ Ht). worker_go. worker_go.
  simpl. split; [done|]. split_and!; try done.
  eauto using with_worker_lookup.
Qed.

Lemma raising_call_iteration σ i bus' e :
  workers σ !! i = Some (WCall bus') →
  ∃ σ',
    run [Worker i (CallResult (Raise e)); Worker i Go; Worker i Go] σ =
      Some (σ', [EvCall i bus' CheckConnectivity; EvReply i (Raise e);
                 EvLog i e]) ∧
    _state (nm σ') = _state (nm σ) ∧
    _state_requested (nm σ') = _state_requested (nm σ) ∧
    _state_ready (nm σ') = _state_ready (nm σ) ∧
    workers σ' !! i = Some WDone ∧
    _dbus_thread (nm σ') = None ∧ client σ' = client σ.
Proof.
  intros Hw. eexists. worker_go. worker_go. worker_go.
  simpl. split; [done|]. split_and!; try done.
  eauto using with_worker_lookup.
Qed.




(** C3, as amended. In every state the program reaches with one calling
    thread: a worker that finds the request flag up at line 129 resets the
    slot to UNKNOWN and only then stands at the call, having made no call
    yet; whenever a worker stands at the call the slot holds UNKNOWN; when
    the call is answered by a reply of error type the worker leaves the
    slot at UNKNOWN, then clears the request flag, then sets the ready
    flag, and waits again; and a [get_state] that was called with nothing
    under way, whatever the slot held, that no other call follows in the
    schedule and whose wait has returned [True], finds the request flag
    down and the ready flag up, and returns UNKNOWN if the reply was of
    error type. *)
Theorem error_reply_leaves_unknown (dbus_address : option string)
    (bus : option DbusMessageBus) (sched : list Action) (σ : System)
    (tr : list Event) :
  run sched (init dbus_address bus) = Some (σ, tr) →
  (∀ i bus',
     workers σ !! i = Some (WWait bus') → _state_requested (nm σ) = true →
     ∃ σ1, run [Worker i Go; Worker i Go] σ =
             Some (σ1, [EvRequest i; EvReset i]) ∧
           workers σ1 !! i = Some (WCall bus') ∧
           _state (nm σ1) = value UNKNOWN) ∧
  (∀ i bus',
     workers σ !! i = Some (WCall bus') → _state (nm σ) = value UNKNOWN) ∧
  (∀ i bus' reply,
     workers σ !! i = Some (WCall bus') → message_type reply = ERROR →
     ∃ σ',
       run [Worker i (CallResult (Ok reply)); Worker i Go; Worker i Go;
            Worker i Go] σ =
         Some (σ', [EvCall i bus' CheckConnectivity;
                    EvReply i (Ok reply)]) ∧
       _state (nm σ') = value UNKNOWN ∧
       _state_requested (nm σ') = false ∧ _state_ready (nm σ') = true ∧
       workers σ' !! i = Some (WWait bus')) ∧
  (quiescent σ →
   ∀ timeout sched' σ' tr',
     Forall no_call sched' →
     run (Invoke (call_get_state timeout) :: sched') σ = Some (σ', tr') →
     client σ' = CIdle → waits tr' = [true] →
     ∃ reply,
       replies tr' = [Ok reply] ∧
       _state_requested (nm σ') = false ∧ _state_ready (nm σ') = true ∧
       (message_type reply = ERROR →
        _state (nm σ') = value UNKNOWN ∧
        first_result tr' = Some (RState (value UNKNOWN)))).
Proof.
  intros Hr.
  destruct (consistent_run _ _ _ _ (consistent_init dbus_address bus) Hr)
    as [Hc _].
  split_and!.
  - intros i bus' Hw Hrq. eexists.
    worker_go by rewrite Hrq. worker_go.
    simpl. split; [done|]. split; [|done].
    eauto using with_worker_lookup.
  - intros i bus' Hw. by eapply consistent_slot.
  - intros i bus' reply Hw Ht.
    destruct (error_reply_iteration _ _ _ _ Hw Ht)
      as (σ' & Hrun & Hst & Hrq & Hrd & Hw' & _).
    exists σ'. split_and!; try done.
    rewrite Hst. by eapply consistent_slot.
  - intros Hq timeout sched' σ' tr' Hok Hr' Hpc Hsig.
    destruct (clean_handshake _ _ _ _ _ Hq Hok Hr' Hpc Hsig)
      as (reply & Hrep & Hcalls & Hout & Hres & Hrq & Hrd & _).
    exists reply. split_and!; try done.
    intros Ht. apply decode_error, outcome_none in Ht.
    rewrite Ht in Hout. injection Hout as Hout. by rewrite Hres, <- Hout.
Qed.


(** ** A worker that failed *)

Lemma worker_step_left_loop j inp self w self' w' evs :
  worker_step j inp self w = Some (self', w', evs) → left_loop w →
  left_loop w' ∧ ∀ i, Forall (λ e, loop_event i e = false) evs.
Proof.
  intros Hs Hl. destruct w, inp; try done; simpl in Hs; simplify_eq;
    (split; [done|intros i; repeat constructor]).
Qed.

Lemma worker_step_events j inp self w self' w' evs i :
  worker_step j inp self w = Some (self', w', evs) → i ≠ j →
  Forall (λ e, loop_event i e = false) evs.
Proof.
  intros Hs Hi%Nat.eqb_neq.
  destruct w, inp; simpl in Hs; try done; case_hyp Hs; simplify_eq;
    repeat constructor; done.
Qed.

Lemma left_loop_step a σ σ' evs i w :
  workers σ !! i = Some w → left_loop w → step a σ = Some (σ', evs) →
  (∃ w', workers σ' !! i = Some w' ∧ left_loop w') ∧
  Forall (λ e, loop_event i e = false) evs.
Proof.
  intros Hw Hl Hs.
  destruct (step_cases a σ) as [(j & inp & ->)|Hcl].
  - apply step_worker in Hs as (wj & self & w' & Hwj & Hs & ->). simpl.
    destruct (decide (i = j)) as [->|Hne].
    + rewrite Hw in Hwj. simplify_eq.
      destruct (worker_step_left_loop _ _ _ _ _ _ _ Hs Hl) as [Hl' Hev].
      split; [|done]. exists w'. split; [|done].
      apply list_lookup_insert_eq. by eapply lookup_lt_Some.
    + rewrite list_lookup_insert_ne by done.
      split; [by exists w|]. by eapply worker_step_events.
  - rewrite Hcl in Hs. unfold client_step, blocked_for, _ensure_thread_started in Hs.
    destruct (client σ) as [|c|c|c|c|c waited|c sig], a; try done;
      try destruct (_dbus_thread (nm σ)) eqn:Hth;
      case_hyp Hs; simplify_eq; simpl;
      (split; [|repeat constructor]); try by exists w.
    exists w. split; [|done]. rewrite lookup_app_l; [done|].
    by eapply lookup_lt_Some.
Qed.

Lemma left_loop_run sched σ σ' tr i w :
  workers σ !! i = Some w → left_loop w → run sched σ = Some (σ', tr) →
  (∃ w', workers σ' !! i = Some w' ∧ left_loop w') ∧
  Forall (λ e, loop_event i e = false) tr.
Proof.
  revert σ tr w. induction sched as [|a sched IH]; intros σ tr w Hw Hl.
  - intros [= <- <-]. split; [by exists w|done].
  - intros (σ1 & evs & tr' & Hs & Hr & ->)%run_cons.
    destruct (left_loop_step _ _ _ _ _ _ Hw Hl Hs) as [(w1 & Hw1 & Hl1) Hev].
    destruct (IH _ _ _ Hw1 Hl1 Hr) as [Hw' Htr].
    split; [done|]. by apply Forall_app.
Qed.

Lemma failed_connect_iteration σ i e :
  workers σ !! i = Some WStart → _bus (nm σ) = None →
  ∃ σ',
    run [Worker i (ConnectResult (Raise e)); Worker i Go; Worker i Go] σ =
      Some (σ', [EvConnect i (new_bus (_dbus_address (nm σ))); EvLog i e]) ∧
    workers σ' !! i = Some WDone ∧ _dbus_thread (nm σ') = None ∧
    client σ' = client σ.
Proof.
  intros Hw Hb. eexists.
  worker_go by rewrite Hb. worker_go. worker_go.
  simpl. split; [done|]. split_and!; try done.
  eauto using with_worker_lookup.
Qed.

Lemma failed_decode_iteration σ i bus' reply e :
  workers σ !! i = Some (WDecode bus' reply) → decode reply = Raise e →
  ∃ σ',
    run [Worker i Go; Worker i Go; Worker i Go] σ = Some (σ', [EvLog i e]) ∧
    workers σ' !! i = Some WDone ∧ _dbus_thread (nm σ') = None ∧
    client σ' = client σ.
Proof.
  intros Hw Hd. eexists.
  worker_go by rewrite Hd. worker_go. worker_go.
  simpl. split; [done|]. split_and!; try done.
  eauto using with_worker_lookup.
Qed.

Lemma config_step a σ σ' evs :
  step a σ = Some (σ', evs) →
  _bus (nm σ') = _bus (nm σ) ∧ _dbus_address (nm σ') = _dbus_address (nm σ).
Proof.
  intros Hs. destruct (step_cases a σ) as [(j & inp & ->)|Hcl].
  - apply step_worker in Hs as (w & self & w' & _ & Hs & ->). simpl.
    destruct w, inp; simpl in Hs; try done; case_hyp Hs; by simplify_eq.
  - rewrite Hcl in Hs. unfold client_step, blocked_for, _ensure_thread_started in Hs.
    destruct (client σ) as [|c|c|c|c|c waited|c sig], a; try done;
      try destruct (_dbus_thread (nm σ)) eqn:Hth;
      case_hyp Hs; by simplify_eq.
Qed.

Lemma config_run sched σ σ' tr :
  run sched σ = Some (σ', tr) →
  _bus (nm σ') = _bus (nm σ) ∧ _dbus_address (nm σ') = _dbus_address (nm σ).
Proof.
  revert σ tr. induction sched as [|a sched IH]; intros σ tr.
  - by intros [= <- <-].
  - intros (σ1 & evs & tr' & Hs & Hr & ->)%run_cons.
    destruct (config_step _ _ _ _ Hs) as [<- <-]. by eapply IH.
Qed.

Lemma restart σ c :
  client σ = CIdle → _dbus_thread (nm σ) = None →
  ∃ σ',
    run [Invoke c; Client] σ = Some (σ', [EvSpawn (length (workers σ))]) ∧
    workers σ' = workers σ ++ [WStart] ∧
    _dbus_thread (nm σ') = Some (length (workers σ)) ∧
    _bus (nm σ') = _bus (nm σ) ∧
    _dbus_address (nm σ') = _dbus_address (nm σ).
Proof.
  intros Hpc Hth.
  exists {| nm := set_thread (Some (length (workers σ))) (nm σ);
            client := CClear c;
            workers := workers σ ++ [WStart] |}.
  split; [|done]. simpl. unfold client_step. rewrite Hpc. simpl.
  unfold _ensure_thread_started. simpl. by rewrite Hth.
Qed.

(** C4, as amended. In every state the program reaches: an exception
    raised by [bus.connect()], by [bus.call()] or while the reply is
    decoded takes the worker out of its loop to the handler, which logs it,
    clears [_dbus_thread] and ends the thread, the client being left where
    it was; a worker that has left its loop stays out of it and never
    connects, receives a request, resets the slot, calls or stores again; a [get_state]
    that begins while [_dbus_thread] is cleared starts a new worker thread,
    and one that begins while it is set starts none; the new worker opens
    a connection of its own when the object was built without a bus, and
    takes the bus the object was built with, opening none, otherwise. *)
Theorem worker_failure_and_restart (dbus_address : option string)
    (bus : option DbusMessageBus) (sched : list Action) (σ : System)
    (tr : list Event) (i : nat) :
  run sched (init dbus_address bus) = Some (σ, tr) →
  (workers σ !! i = Some WStart → _bus (nm σ) = None →
   ∀ e, ∃ σ',
     run [Worker i (ConnectResult (Raise e)); Worker i Go; Worker i Go] σ =
       Some (σ', [EvConnect i (new_bus (_dbus_address (nm σ)));
                  EvLog i e]) ∧
     workers σ' !! i = Some WDone ∧ _dbus_thread (nm σ') = None ∧
     client σ' = client σ) ∧
  (∀ bus' e,
     workers σ !! i = Some (WCall bus') →
     ∃ σ',
       run [Worker i (CallResult (Raise e)); Worker i Go; Worker i Go] σ =
         Some (σ', [EvCall i bus' CheckConnectivity; EvReply i (Raise e);
                    EvLog i e]) ∧
       workers σ' !! i = Some WDone ∧ _dbus_thread (nm σ') = None ∧
       client σ' = client σ) ∧
  (∀ bus' reply e,
     workers σ !! i = Some (WDecode bus' reply) → decode reply = Raise e →
     ∃ σ',
       run [Worker i Go; Worker i Go; Worker i Go] σ =
         Some (σ', [EvLog i e]) ∧
       workers σ' !! i = Some WDone ∧ _dbus_thread (nm σ') = None ∧
       client σ' = client σ) ∧
  (∀ w, workers σ !! i = Some w → left_loop w →
     ∀ sched' σ' tr',
       run sched' σ = Some (σ', tr') →
       left_loop (worker_at σ' i) ∧
       Forall (λ e, loop_event i e = false) tr') ∧
  (client σ = CIdle → _dbus_thread (nm σ) = None →
   ∀ c, ∃ σ',
     run [Invoke c; Client] σ = Some (σ', [EvSpawn (length (workers σ))]) ∧
     workers σ' = workers σ ++ [WStart] ∧
     _dbus_thread (nm σ') = Some (length (workers σ)) ∧
     _bus (nm σ') = bus ∧ _dbus_address (nm σ') = dbus_address) ∧
  (client σ = CIdle → ∀ j, _dbus_thread (nm σ) = Some j →
   ∀ c, run [Invoke c; Client] σ = Some (at_pc (CClear c) σ, [])) ∧
  (workers σ !! i = Some WStart →
   match _bus (nm σ) with
   | None =>
       step (Worker i Go) σ = None ∧
       ∀ r, ∃ σ',
         step (Worker i (ConnectResult r)) σ =
           Some (σ', [EvConnect i (new_bus (_dbus_address (nm σ)))])
   | Some bus' =>
       step (Worker i Go) σ =
         Some (with_worker i (WWait bus') (nm σ) σ, []) ∧
       ∀ r, step (Worker i (ConnectResult r)) σ = None
   end).
Proof.
  intros Hr. split_and!.
  - intros Hw Hb e. by apply failed_connect_iteration.
  - intros bus' e Hw.
    destruct (raising_call_iteration _ _ _ e Hw)
      as (σ' & Hrun & _ & _ & _ & Hw' & Hth & Hpc).
    by exists σ'.
  - intros bus' reply e Hw Hd. by eapply failed_decode_iteration.
  - intros w Hw Hl sched' σ' tr' Hr'.
    destruct (left_loop_run _ _ _ _ _ _ Hw Hl Hr') as [(w' & Hw' & Hl') Hev].
    unfold worker_at. by rewrite Hw'.
  - intros Hpc Hth c.
    destruct (restart σ c Hpc Hth) as (σ' & Hrun & Hws & Hth' & Hb & Ha).
    destruct (config_run _ _ _ _ Hr) as [Hb0 Ha0]. simpl in Hb0, Ha0.
    exists σ'. split_and!; try done; congruence.
  - intros Hpc j Hth c. simpl. unfold client_step.
    rewrite Hpc. simpl. unfold _ensure_thread_started. simpl.
    by rewrite Hth.
  - intros Hw. simpl. rewrite Hw. simpl.
    destruct (_bus (nm σ)); [done|]. split; [done|]. intros r. by eexists.
Qed.

(** * The properties on concrete runs *)

Lemma quiescent_init dbus_address bus : quiescent (init dbus_address bus).
Proof. by split_and!. Qed.

(** Provides the state and the trace that a closed schedule leads to, as
    [σ] and [tr], with [Hrun] saying that the schedule leads there. *)
Tactic Notation "run_exists" "as" ident(σ) ident(tr) ident(Hrun) :=
  lazymatch goal with
  | |- ∃ _ _, run ?sched ?σ0 = Some _ ∧ _ =>
      let r := eval vm_compute in (run sched σ0) in
      lazymatch r with
      | Some (?σ1, ?tr1) =>
          pose (σ := σ1); pose (tr := tr1);
          assert (run sched σ0 = Some (σ, tr)) as Hrun
            by (vm_compute; reflexivity);
          exists σ, tr; split; [exact Hrun|]
      end
  end.

Ltac by_run := vm_compute; reflexivity.


(** C2 on a call with the default timeout, made after an earlier call
    stored FULL and blocked for half a second so far: it has waited for no
    longer than its timeout, and when the other half has passed it leaves
    the wait and returns FULL, the state stored last. *)
Lemma get_state_returns_slot_after_timeout :
  ∃ σ tr,
    run (first_call (Ok (reply_of METHOD_RETURN [PyInt 4])) ++
         Invoke (call_get_state (TNum DEFAULT_TIMEOUT)) :: request ++
         [Client; Elapse 0.5])
        (init None None) = Some (σ, tr) ∧
    client σ = CBlocked (call_get_state (TNum DEFAULT_TIMEOUT)) 0.5 ∧
    (0.5 <= DEFAULT_TIMEOUT)%Q ∧
    last_store tr = Some (value FULL) ∧
    run [Elapse (DEFAULT_TIMEOUT - 0.5); Timeout; Client] σ =
      Some (at_pc CIdle σ,
            [EvWait false;
             EvReturn (call_get_state (TNum DEFAULT_TIMEOUT))
               (RState (value FULL))]).
Proof.
  run_exists as σ tr Hrun. split; [reflexivity|].
  destruct (get_state_returns_slot None None _ _ _ Hrun)
    as (_ & Hb & _ & Hout).
  destruct (Hb (call_get_state (TNum DEFAULT_TIMEOUT)) 0.5%Q eq_refl)
    as (_ & (_ & _ & Hle) & _).
  split; [exact Hle|]. split; [reflexivity|].
  exact (Hout (call_get_state (TNum DEFAULT_TIMEOUT)) 0.5%Q eq_refl eq_refl).
Defined.

(** C3 on a call answered by an error reply after an earlier call stored
    FULL: UNKNOWN is in the slot and is returned. *)
Lemma error_reply_leaves_unknown_after_full :
  ∃ σ tr,
    run (first_call (Ok (reply_of METHOD_RETURN [PyInt 4]))) (init None None)
      = Some (σ, tr) ∧
    _state (nm σ) = value FULL ∧
    ∃ σ' tr',
      run (next_call (Ok (reply_of ERROR []))) σ = Some (σ', tr') ∧
      _state (nm σ') = value UNKNOWN ∧
      first_result tr' = Some (RState (value UNKNOWN)) ∧
      _state_requested (nm σ') = false ∧ _state_ready (nm σ') = true.
Proof.
  run_exists as σ tr Hrun. split; [reflexivity|].
  destruct (error_reply_leaves_unknown None None _ _ _ Hrun)
    as (_ & _ & _ & H).
  destruct (clean_handshake (call_get_state (TNum DEFAULT_TIMEOUT))
              (request ++ to_the_call ++
               answer (Ok (reply_of METHOD_RETURN [PyInt 4])))
              (init None None) σ tr (quiescent_init None None)
              ltac:(repeat constructor) Hrun eq_refl eq_refl)
    as (_ & _ & _ & _ & _ & _ & _ & Hq).
  run_exists as σ' tr' Hrun'.
  destruct (H Hq (TNum DEFAULT_TIMEOUT)
              (request ++ to_the_call_again ++ answer (Ok (reply_of ERROR [])))
              σ' tr' ltac:(repeat constructor) Hrun' eq_refl eq_refl)
    as (reply & Hrep & Hrq & Hrd & Herr).
  injection Hrep as <-. destruct (Herr eq_refl) as [Hs Hres].
  repeat split; assumption.
Defined.

(** C4 on a worker that could not connect: the next [get_state] starts a
    second worker. *)
Lemma worker_failure_and_restart_after_failed_connect :
  ∃ σ tr,
    run failed_connect_run (init None None) = Some (σ, tr) ∧
    client σ = CIdle ∧ _dbus_thread (nm σ) = None ∧ workers σ = [WDone] ∧
    ∃ σ',
      run [Invoke (call_get_state (TNum DEFAULT_TIMEOUT)); Client] σ =
        Some (σ', [EvSpawn 1]) ∧
      workers σ' = [WDone; WStart] ∧ _dbus_thread (nm σ') = Some 1%nat.
Proof.
  run_exists as σ tr Hrun. do 3 (split; [reflexivity|]).
  destruct (worker_failure_and_restart None None _ _ _ 0%nat Hrun)
    as (_ & _ & _ & _ & H & _).
  destruct (H eq_refl eq_refl (call_get_state (TNum DEFAULT_TIMEOUT)))
    as (σ' & Hrun' & Hws & Hth & _).
  exists σ'. repeat split; assumption.
Defined.


(** C8 after a first call answered [4]. *)
Lemma state_slot_always_member_after_full :
  ∃ σ tr,
    run (first_call (Ok (reply_of METHOD_RETURN [PyInt 4]))) (init None None)
      = Some (σ, tr) ∧
    (∃ s, In s [UNKNOWN; NONE; PORTAL; LIMITED; FULL] ∧
          _state (nm σ) = value s) ∧
    0 ≤ _state (nm σ) ≤ 4.
Proof.
  run_exists as σ tr Hrun.
  destruct (state_slot_always_member None None _ _ _ Hrun) as (Hm & Hr & _).
  split; assumption.
Defined.

(** ** Where the claims as first stated fail *)


(** C2, as first stated, fails: with a timeout of ten thousand million
    seconds, which is above [TIMEOUT_MAX], the wait of line 89 raises
    [OverflowError] and [get_state] ends by that exception. *)
Lemma get_state_raises_on_large_timeout :
  ∃ σ tr,
    run [Invoke (call_get_state (TNum 10000000000)); Client; Client; Client;
         Client] (init None None) = Some (σ, tr) ∧
    tr = [EvSpawn 0;
          EvReturn (call_get_state (TNum 10000000000))
            (RRaise OverflowError)] ∧
    client σ = CIdle.
Proof.
  run_exists as σ tr Hrun. split; reflexivity.
Qed.

(** C3, as first stated, fails: after a call that stored FULL, a call
    with timeout 0 finds the flag down, does not wait and returns FULL,
    the state of the call before; the worker then handles the request of
    this call, resets the slot, and its call is answered by a reply of
    error type.  [get_state] returned FULL for a request whose reply was
    an error. *)
Lemma stale_state_returned_before_reset :
  ∃ σ tr,
    run (first_call (Ok (reply_of METHOD_RETURN [PyInt 4])) ++
         Invoke (call_get_state (TNum 0)) :: request ++ [Client; Client] ++
         to_the_call_again ++
         [Worker 0 (CallResult (Ok (reply_of ERROR [])));
          Worker 0 Go; Worker 0 Go; Worker 0 Go])
        (init None None) = Some (σ, tr) ∧
    results tr = [RState (value FULL); RState (value FULL)] ∧
    replies tr = [Ok (reply_of METHOD_RETURN [PyInt 4]);
                  Ok (reply_of ERROR [])] ∧
    requests_of 0 tr = 2%nat ∧
    _state (nm σ) = value UNKNOWN ∧
    _state_requested (nm σ) = false ∧ _state_ready (nm σ) = true.
Proof.
  run_exists as σ tr Hrun. split_and!; reflexivity.
Qed.


(** C4, as first stated, fails: with a bus handed to the constructor, the
    worker started after a failure opens no connection; it takes the bus
    the first worker used. *)
Lemma injected_bus_is_not_reconnected :
  ∃ σ tr,
    run injected_bus_restart_run (init None (Some injected_bus)) =
      Some (σ, tr) ∧
    In (EvLog 0 (BusError "connection closed")) tr ∧
    In (EvSpawn 1) tr ∧
    workers σ = [WDone; WWait injected_bus] ∧
    connects tr = [] ∧
    _state (nm σ) = value FULL.
Proof.
  run_exists as σ tr Hrun.
  split_and!; first [reflexivity|simpl; auto 10].
Qed.

(** * Further properties of the code *)

(** ** Decoding *)

Lemma member_of_value_inv n s : member_of_value n = Ok s → n = value s.
Proof.
  destruct (decide (0 ≤ n ≤ 4)) as [Hn|Hn].
  - destruct (member_of_value_range n Hn) as (s' & <- & ->). by intros [= ->].
  - by rewrite member_of_value_outside.
Qed.

Lemma ConnectivityState_call_ok x s :
  ConnectivityState_call x = Ok s ↔
  x = PyInt (value s) ∨ x = PyBool true ∧ s = NONE ∨
  x = PyBool false ∧ s = UNKNOWN ∨
  ∃ q, x = PyFloat q ∧ (q == inject_Z (value s))%Q.
Proof.
  unfold ConnectivityState_call. split.
  - destruct x as [n|[]|q|t|]; simpl; intros Hx; try done.
    + left. f_equal. by apply member_of_value_inv.
    + right. left. vm_compute in Hx. by simplify_eq.
    + right. right. left. vm_compute in Hx. by simplify_eq.
    + destruct (Qeq_bool q (inject_Z (Qfloor q))) eqn:Hq; [|done].
      apply member_of_value_inv in Hx. do 3 right. exists q.
      split; [done|]. rewrite <- Hx. by apply Qeq_bool_iff.
  - intros [->|[[-> ->]|[[-> ->]|(q & -> & Hq)]]]; try done.
    + by destruct s.
    + simpl. assert (Qfloor q = value s) as -> by (rewrite Hq; apply Qfloor_Z).
      assert (Qeq_bool q (inject_Z (value s)) = true) as ->
        by (by apply Qeq_bool_iff).
      by destruct s.
Qed.

(** X1. [ConnectivityState(n)] on an integer and [value] are inverse to
    each other: the call returns member [s] exactly when [n] is the value
    of [s], and it raises [ValueError] exactly when [n] is outside of 0..4;
    a boolean is looked up as the integer it equals, and so is a float; a
    string, or an object that is no number, is no member. *)
Theorem ConnectivityState_call_value (n : Z) (s : ConnectivityState) :
  (ConnectivityState_call (PyInt n) = Ok s ↔ n = value s) ∧
  (ConnectivityState_call (PyInt n) = Raise ValueError ↔ ¬ 0 ≤ n ≤ 4) ∧
  (∀ b, ConnectivityState_call (PyBool b) = Ok (if b then NONE else UNKNOWN)) ∧
  (∀ q, ConnectivityState_call (PyFloat q) = Ok s ↔
        (q == inject_Z (value s))%Q) ∧
  (∀ t, ConnectivityState_call (PyStr t) = Raise ValueError) ∧
  ConnectivityState_call PyOther = Raise ValueError.
Proof.
  split_and!; try done.
  - split; [apply member_of_value_inv|]. intros ->. by destruct s.
  - unfold ConnectivityState_call. simpl. split.
    + intros Hr [Hl Hu].
      destruct (member_of_value_range n (conj Hl Hu)) as (s' & _ & Hm).
      by rewrite Hm in Hr.
    + apply member_of_value_outside.
  - by intros [].
  - intros q. rewrite ConnectivityState_call_ok. split.
    + intros [?|[[? _]|[[? _]|(q' & [= <-] & Hq)]]]; done.
    + intros Hq. do 3 right. by exists q.
Qed.

Lemma decode_unfold reply :
  decode reply =
  match message_type reply with
  | ERROR => Ok None
  | _ =>
      match body reply with
      | [] => Raise IndexError
      | x :: _ =>
          match ConnectivityState_call x with
          | Ok s => Ok (Some s)
          | Raise e => Raise e
          end
      end
  end.
Proof.
  unfold decode.
  destruct (message_type reply); simpl; try done;
    destruct (body reply) as [|x rest]; simpl; try done;
    unfold mbind, result_bind; by destruct (ConnectivityState_call x).
Qed.

Lemma ConnectivityState_call_raise x e :
  ConnectivityState_call x = Raise e → e = ValueError.
Proof.
  unfold ConnectivityState_call.
  destruct (as_integer x) as [n|]; [|by intros [=]].
  destruct (decide (0 ≤ n ≤ 4)) as [Hn|Hn].
  - by destruct (member_of_value_range n Hn) as (s' & _ & ->).
  - rewrite member_of_value_outside by done. by intros [=].
Qed.

(** X2. What lines 140-141 make of a reply: a state is stored exactly
    when the reply is not of error type and its first body field is the
    value of a member (or the boolean or float equal to it); nothing is
    stored and nothing raised exactly when the reply is of error type,
    whatever its body; [IndexError] is raised exactly when a reply not of
    error type has an empty body, and [ValueError] exactly when its first
    field is no member's value; nothing else is ever raised. *)
Theorem decode_cases (reply : DbusMessage) (s : ConnectivityState) :
  (decode reply = Ok (Some s) ↔
   message_type reply ≠ ERROR ∧
   ∃ x rest, body reply = x :: rest ∧
     (x = PyInt (value s) ∨ x = PyBool true ∧ s = NONE ∨
      x = PyBool false ∧ s = UNKNOWN ∨
      ∃ q, x = PyFloat q ∧ (q == inject_Z (value s))%Q)) ∧
  (decode reply = Ok None ↔ message_type reply = ERROR) ∧
  (decode reply = Raise IndexError ↔
   message_type reply ≠ ERROR ∧ body reply = []) ∧
  (decode reply = Raise ValueError ↔
   message_type reply ≠ ERROR ∧
   ∃ x rest, body reply = x :: rest ∧
     ConnectivityState_call x = Raise ValueError) ∧
  (∀ e, decode reply = Raise e → e = IndexError ∨ e = ValueError).
Proof.
  rewrite decode_unfold.
  assert (∀ x s', ConnectivityState_call x = Ok s' →
            (x = PyInt (value s) ∨ x = PyBool true ∧ s = NONE ∨
             x = PyBool false ∧ s = UNKNOWN ∨
             ∃ q, x = PyFloat q ∧ (q == inject_Z (value s))%Q) →
            s' = s) as Hinj.
  { intros x s' Hx Hs%ConnectivityState_call_ok. congruence. }
  destruct (message_type reply) eqn:Ht;
    destruct (body reply) as [|x rest] eqn:Hb;
    try destruct (ConnectivityState_call x) as [s'|e] eqn:Hx;
    try (apply ConnectivityState_call_raise in Hx as Hv; subst e);
    (split_and!; [split|split|split|split|]).
  all: try (intros; simplify_eq; done).
  all: try (intros (? & ? & ? & ? & ?); simplify_eq; done).
  all: try (intros (? & ?); simplify_eq; done).
  all: try (intros; simplify_eq; auto; done).
  all: try (intros [= ->]; split; [done|]; exists x, rest; split; [done|];
            by apply ConnectivityState_call_ok).
  all: try (intros (_ & x' & rest' & [= <- <-] & Hc);
            first [by rewrite (Hinj _ _ Hx Hc)
                  |by apply ConnectivityState_call_ok in Hc; congruence
                  |congruence]).
  all: intros _; split; [done|]; by exists x, rest.
Qed.

(** ** Threads, logs and connections *)

Lemma spawned_app tr tr' : spawned (tr ++ tr') = spawned tr ++ spawned tr'.
Proof. apply omap_app. Qed.

Lemma logged_app tr tr' : logged (tr ++ tr') = logged tr ++ logged tr'.
Proof. apply omap_app. Qed.

Lemma connects_app tr tr' : connects (tr ++ tr') = connects tr ++ connects tr'.
Proof. apply omap_app. Qed.

Lemma worker_step_accounts j inp self w self' w' evs :
  worker_step j inp self w = Some (self', w', evs) →
  spawned evs = [] ∧
  (length (logged evs) + unlogged w' = unlogged w)%nat ∧
  (length (connects evs) + unconnected w' ≤ unconnected w)%nat ∧
  unlogged w' = from_option unlogged 0%nat (cur_after w').
Proof.
  intros Hs.
  destruct w, inp as [|[]|[]]; simpl in Hs; try done; case_hyp Hs;
    simplify_eq; simpl; split_and!; first [done|lia].
Qed.

Lemma client_events_account evs :
  Forall client_event evs →
  spawned evs = [] ∧ logged evs = [] ∧ connects evs = [].
Proof. induction 1 as [|[] evs He _ IH]; done. Qed.

Lemma accounted_step a σ σ' evs tr :
  consistent σ → accounted σ tr → step a σ = Some (σ', evs) →
  accounted σ' (tr ++ evs).
Proof.
  intros (Hsolo & _ & Hc) (Hsp & Hlog & Hcon) Hs.
  unfold accounted. rewrite spawned_app, logged_app, connects_app, !length_app.
  destruct (step_cases a σ) as [(j & inp & ->)|Hcl].
  - destruct (step_worker_cur _ _ _ _ _ Hsolo Hs)
      as (w & w' & Ht & Hcur & Hw & _ & Hws & _ & Hcur').
    destruct (worker_step_accounts _ _ _ _ _ _ _ Hw) as (-> & Hl & Hn & Hu).
    rewrite Hws, length_insert, Hcur', app_nil_r.
    rewrite Hcur in Hlog, Hcon. simpl in *.
    split_and!; [done|lia|].
    assert (from_option unconnected 0%nat (cur_after w') = unconnected w')%nat
      as -> by by destruct w'.
    lia.
  - rewrite Hcl in Hs.
    destruct (step_client_cur _ _ _ _ Hsolo Hs)
      as [_ [(Hws & _ & Hcur & Hev)|(c & _ & _ & Ht & Hcur & -> & ->)]].
    + rewrite Hws, Hcur.
      destruct (client_events_account _ Hev) as (-> & -> & ->).
      rewrite app_nil_r. simpl. split_and!; [done|lia|lia].
    + simpl. rewrite Hcur, length_app. simpl.
      assert (cur σ = None) as Hn by (unfold cur; by rewrite Ht).
      rewrite Hn in Hlog, Hcon. simpl in *.
      split_and!; [|lia|lia].
      rewrite Hsp, Nat.add_1_r. by rewrite seq_S.
Qed.

Lemma accounted_run sched σ σ' tr0 tr :
  consistent σ → accounted σ tr0 → run sched σ = Some (σ', tr) →
  accounted σ' (tr0 ++ tr).
Proof.
  revert σ tr0 tr. induction sched as [|a sched IH]; intros σ tr0 tr Hc Ha.
  - intros [= <- <-]. by rewrite app_nil_r.
  - intros (σ1 & evs & tr' & Hs & Hr & ->)%run_cons.
    rewrite app_assoc. eapply IH; [|by eapply accounted_step|done].
    by destruct (consistent_step _ _ _ _ Hc Hs).
Qed.

Lemma accounted_init dbus_address bus : accounted (init dbus_address bus) [].
Proof. by split_and!. Qed.

(** X3. With one client thread, at most one worker thread is alive at a
    time: in every state the program reaches, two workers that have not
    ended are the same worker, and [_dbus_thread] names a worker exactly
    when that worker has not ended. *)
Theorem at_most_one_worker_alive (dbus_address : option string)
    (bus : option DbusMessageBus) (sched : list Action) (σ : System)
    (tr : list Event) :
  run sched (init dbus_address bus) = Some (σ, tr) →
  (∀ i j w w',
     workers σ !! i = Some w → workers σ !! j = Some w' →
     w ≠ WDone → w' ≠ WDone → i = j) ∧
  (∀ i, _dbus_thread (nm σ) = Some i ↔
        ∃ w, workers σ !! i = Some w ∧ w ≠ WDone).
Proof.
  intros Hr.
  destruct (consistent_run _ _ _ _ (consistent_init dbus_address bus) Hr)
    as [(Hsolo & _ & Hc) _].
  assert (∀ i w, workers σ !! i = Some w → w ≠ WDone →
                 _dbus_thread (nm σ) = Some i) as Hnamed.
  { intros i w Hw Hlive.
    destruct (decide (_dbus_thread (nm σ) = Some i)) as [|Hne]; [done|].
    by destruct Hlive; eapply Hsolo. }
  split.
  - intros i j w w' Hi Hj Hw Hw'.
    pose proof (Hnamed _ _ Hi Hw) as Hti.
    pose proof (Hnamed _ _ Hj Hw') as Htj. congruence.
  - intros i. split.
    + intros Ht. rewrite Ht in Hc. unfold cur in Hc. rewrite Ht in Hc.
      destruct Hc as (w & Hw & Hlive & _). by exists w.
    + intros (w & Hw & Hlive). by eapply Hnamed.
Qed.

(** X4. With one client thread, threads and connections are not made per
    request: in every state the program reaches, the threads started are
    numbered 0, 1, 2, ... in order of start; a thread is started only after
    every earlier one has logged an exception; and no more connections were
    opened than threads started.  While no exception has been logged, any
    number of calls made one after the other has started at most one
    thread and opened at most one connection. *)
Theorem threads_and_connections_accounted (dbus_address : option string)
    (bus : option DbusMessageBus) (sched : list Action) (σ : System)
    (tr : list Event) :
  run sched (init dbus_address bus) = Some (σ, tr) →
  spawned tr = seq 0 (length (workers σ)) ∧
  (length (spawned tr) ≤ S (length (logged tr)))%nat ∧
  (length (connects tr) ≤ length (spawned tr))%nat ∧
  (logged tr = [] →
   (length (spawned tr) ≤ 1)%nat ∧ (length (connects tr) ≤ 1)%nat).
Proof.
  intros Hr.
  destruct (accounted_run _ _ _ [] _ (consistent_init dbus_address bus)
              (accounted_init dbus_address bus) Hr) as (Hsp & Hlog & Hcon).
  simpl in *. rewrite Hsp, length_seq.
  assert (from_option unlogged 0%nat (cur σ) ≤ 1)%nat
    by (by destruct (cur σ) as [[]|]; simpl; lia).
  split_and!; [done|lia|lia|].
  intros Hl. rewrite Hl in Hlog. simpl in Hlog. lia.
Qed.

(** ** The bus the workers talk on *)

Lemma worker_step_bus j inp self w self' w' evs :
  worker_step j inp self w = Some (self', w', evs) →
  (∀ b, bus_of w = Some b →
        b = configured_bus (_dbus_address self) (_bus self)) →
  (∀ b, bus_of w' = Some b →
        b = configured_bus (_dbus_address self) (_bus self)) ∧
  Forall (event_on_bus (bool_decide (is_Some (_bus self)))
            (configured_bus (_dbus_address self) (_bus self))) evs.
Proof.
  intros Hs Hb. unfold configured_bus in *.
  destruct w, inp as [|[]|[]]; simpl in Hs; try done; case_hyp Hs;
    simplify_eq; simpl in *;
    repeat match goal with H : _bus _ = _ |- _ => rewrite H in * end;
    simpl in *;
    (split; [try done; try (by intros ? [= <-]; auto)
            |repeat constructor; simpl; auto]).
Qed.

Lemma on_configured_bus_step a σ σ' evs :
  on_configured_bus σ → step a σ = Some (σ', evs) →
  on_configured_bus σ' ∧
  Forall (event_on_bus (bool_decide (is_Some (_bus (nm σ))))
            (configured_bus (_dbus_address (nm σ)) (_bus (nm σ)))) evs.
Proof.
  intros Hinv Hs. destruct (config_step _ _ _ _ Hs) as [Hb Ha].
  unfold on_configured_bus. rewrite Hb, Ha.
  destruct (step_cases a σ) as [(j & inp & ->)|Hcl].
  - apply step_worker in Hs as (w & self & w' & Hw & Hs & ->).
    destruct (worker_step_bus _ _ _ _ _ _ _ Hs (λ b, Hinv j w b Hw))
      as [Hb' Hev].
    split; [|done]. intros i wi b. simpl.
    destruct (decide (i = j)) as [->|Hne].
    + rewrite list_lookup_insert_eq by by eapply lookup_lt_Some.
      intros [= <-]. apply Hb'.
    + rewrite list_lookup_insert_ne by done. apply Hinv.
  - rewrite Hcl in Hs.
    unfold client_step, blocked_for, _ensure_thread_started in Hs.
    destruct (client σ) as [|c|c|c|c|c waited|c sig], a; try done;
      try destruct (_dbus_thread (nm σ)) eqn:Hth;
      case_hyp Hs; simplify_eq; simpl;
      (split; [|by repeat constructor]); try done.
    intros i w b Hw.
    destruct (decide (i < length (workers σ))%nat).
    + rewrite lookup_app_l in Hw by done. by eapply Hinv.
    + rewrite lookup_app_r in Hw by lia.
      destruct (i - length (workers σ))%nat as [|[]]; simpl in Hw;
        simplify_eq. by intros [=].
Qed.

Lemma on_configured_bus_run sched σ σ' tr :
  on_configured_bus σ → run sched σ = Some (σ', tr) →
  on_configured_bus σ' ∧
  Forall (event_on_bus (bool_decide (is_Some (_bus (nm σ))))
            (configured_bus (_dbus_address (nm σ)) (_bus (nm σ)))) tr.
Proof.
  revert σ tr. induction sched as [|a sched IH]; intros σ tr Hinv.
  - by intros [= <- <-].
  - intros (σ1 & evs & tr' & Hs & Hr & ->)%run_cons.
    destruct (on_configured_bus_step _ _ _ _ Hinv Hs) as [Hinv1 Hev].
    destruct (IH _ _ Hinv1 Hr) as [Hinv' Htr].
    destruct (config_step _ _ _ _ Hs) as [Hb Ha]. rewrite Hb, Ha in Htr.
    split; [done|]. by apply Forall_app.
Qed.

(** X5. A [NetworkManager] talks on one bus for its whole life: in every
    state the program reaches, every call went to, and every worker holds,
    the bus handed to the constructor if there was one, and else the bus
    of the address handed to it, or the system bus when the address was
    [None] or the empty string; a connection was only ever opened without
    an injected bus, and to that bus. *)
Theorem one_bus_for_life (dbus_address : option string)
    (bus : option DbusMessageBus) (sched : list Action) (σ : System)
    (tr : list Event) :
  run sched (init dbus_address bus) = Some (σ, tr) →
  (∀ i bus' m, In (EvCall i bus' m) tr →
               bus' = configured_bus dbus_address bus) ∧
  (∀ i w bus', workers σ !! i = Some w → bus_of w = Some bus' →
               bus' = configured_bus dbus_address bus) ∧
  (∀ i bus', In (EvConnect i bus') tr →
             bus = None ∧ bus' = configured_bus dbus_address bus) ∧
  configured_bus dbus_address bus =
    match bus, dbus_address with
    | Some injected, _ => injected
    | None, None | None, Some "" =>
        {| bus_address := None; bus_type := SYSTEM |}
    | None, Some address =>
        {| bus_address := Some address; bus_type := SESSION |}
    end.
Proof.
  intros Hr.
  assert (on_configured_bus (init dbus_address bus)) as Hinit.
  { by intros i w b [=]. }
  destruct (on_configured_bus_run _ _ _ _ Hinit Hr) as [Hinv Hev].
  destruct (config_run _ _ _ _ Hr) as [Hb Ha]. simpl in *.
  rewrite Forall_forall in Hev.
  split_and!.
  - intros i bus' m Hin%list_elem_of_In. by apply Hev in Hin.
  - intros i w bus' Hw Hbus. rewrite <- Hb, <- Ha. by eapply Hinv.
  - intros i bus' Hin%list_elem_of_In. apply Hev in Hin as [Hi ->].
    split; [|done]. destruct bus; [|done].
    by rewrite bool_decide_eq_false in Hi; destruct Hi.
  - by destruct bus as [?|], dbus_address as [[|??]|].
Qed.

(** ** A call can always be served *)

Lemma run_client_at a sched σ σ1 evs :
  client_step a σ = Some (σ1, evs) →
  (∀ j inp, a ≠ Worker j inp) →
  run (a :: sched) σ = '(σ2, tr) ← run sched σ1; Some (σ2, evs ++ tr).
Proof.
  intros Hs Ha. cbn [run].
  assert (step a σ = client_step a σ) as -> by (destruct a; [done..|]; by destruct (Ha i inp)).
  by rewrite Hs.
Qed.

(** Runs the next statement of a worker, however many statements it has
    run before. *)
Tactic Notation "worker_next" "by" tactic(tac) :=
  erewrite run_worker_at;
    [|by eauto 30 using with_worker_lookup|simpl; tac; reflexivity].

Tactic Notation "worker_next" := worker_next by idtac.

(** Runs the next statement of the client. *)
Tactic Notation "client_go" "by" tactic(tac) :=
  erewrite run_client_at;
    [|unfold client_step, blocked_for, _ensure_thread_started; simpl; tac; reflexivity
     |done].

Tactic Notation "client_go" := client_go by idtac.

Lemma answer_by_run σ i bus c reply state :
  workers σ !! i = Some (WWait bus) →
  client σ = CWait c →
  _state_requested (nm σ) = true →
  outcome reply = Ok state →
  ∃ σ' tr,
    run (answer_by i (Ok reply)) σ = Some (σ', tr) ∧
    first_result tr = Some (returns c state) ∧
    results tr = [returns c state] ∧
    calls tr = [CheckConnectivity] ∧ replies tr = [Ok reply] ∧
    spawned tr = [] ∧ connects tr = [] ∧ logged tr = [] ∧
    client σ' = CIdle ∧ _state (nm σ') = state ∧
    _state_requested (nm σ') = false ∧ _state_ready (nm σ') = true ∧
    workers σ' !! i = Some (WWait bus) ∧
    length (workers σ') = length (workers σ) ∧
    _dbus_thread (nm σ') = _dbus_thread (nm σ) ∧
    _bus (nm σ') = _bus (nm σ).
Proof.
  intros Hw Hpc Hrq Hout. unfold answer_by, outcome in *.
  destruct (decode reply) as [[s|]|e] eqn:Hd; simpl in Hout;
    unfold mret, result_ret in Hout; simplify_eq.
  - eexists _, _.
    worker_next by rewrite Hrq. worker_next. worker_next.
    worker_next by rewrite Hd. worker_next. worker_next.
    client_go by rewrite Hpc. client_go.
    simpl. split; [done|]. split_and!; try done.
    + apply list_lookup_insert_eq. simpl. rewrite !length_insert.
      by eapply lookup_lt_Some.
    + simpl. by rewrite !length_insert.
  - eexists _, _.
    worker_next by rewrite Hrq. worker_next. worker_next.
    worker_next by rewrite Hd. worker_next. worker_next.
    client_go by rewrite Hpc. client_go.
    simpl. split; [done|]. split_and!; try done.
    + apply list_lookup_insert_eq. simpl. rewrite !length_insert.
      by eapply lookup_lt_Some.
    + simpl. by rewrite !length_insert.
Qed.

Lemma serve_prefix_run σ c :
  ready_to_serve σ →
  ∃ σ1 tr1 bus,
    run ([Invoke c; Client; Client; Client] ++ start_worker σ) σ =
      Some (σ1, tr1) ∧
    workers σ1 !! serving_worker σ = Some (WWait bus) ∧
    client σ1 = CWait c ∧ _state_requested (nm σ1) = true ∧
    _dbus_thread (nm σ1) = Some (serving_worker σ) ∧
    _bus (nm σ1) = _bus (nm σ) ∧
    results tr1 = [] ∧ calls tr1 = [] ∧ replies tr1 = [] ∧ logged tr1 = [] ∧
    spawned tr1 =
      match _dbus_thread (nm σ) with
      | Some _ => []
      | None => [length (workers σ)]
      end ∧
    (length (connects tr1) ≤ length (spawned tr1))%nat.
Proof.
  intros [Hpc Hw]. unfold start_worker, serving_worker.
  destruct (_dbus_thread (nm σ)) as [i|] eqn:Hth; cbn [app default].
  - destruct Hw as [bus Hw]. eexists _, _, bus.
    client_go by rewrite Hpc. client_go by rewrite Hth.
    client_go. client_go.
    simpl. split; [done|]. by split_and!.
  - destruct (_bus (nm σ)) as [bus|] eqn:Hb.
    + eexists _, _, bus.
      client_go by rewrite Hpc. client_go by rewrite Hth.
      client_go. client_go.
      erewrite run_worker_at;
        [|simpl; by rewrite lookup_app_r, Nat.sub_diag
         |simpl; rewrite Hb; reflexivity].
      simpl. split; [done|]. split_and!; try done; try (simpl; lia).
      apply list_lookup_insert_eq. simpl. rewrite length_app. simpl. lia.
    + eexists _, _, (new_bus (_dbus_address (nm σ))).
      client_go by rewrite Hpc. client_go by rewrite Hth.
      client_go. client_go.
      erewrite run_worker_at;
        [|simpl; by rewrite lookup_app_r, Nat.sub_diag
         |simpl; rewrite Hb; reflexivity].
      simpl. split; [done|]. split_and!; try done; try (simpl; lia).
      apply list_lookup_insert_eq. simpl. rewrite length_app. simpl. lia.
Qed.

Lemma results_app tr tr' : results (tr ++ tr') = results tr ++ results tr'.
Proof. apply omap_app. Qed.

Lemma first_result_results tr : first_result tr = head (results tr).
Proof. induction tr as [|[] tr IH]; simpl; auto. Qed.

(** A call made while the client is idle and the worker idle or absent,
    served without a timeout. *)
Lemma serve_run σ c reply state :
  ready_to_serve σ →
  outcome reply = Ok state →
  ∃ σ' tr,
    run (serve σ c (Ok reply)) σ = Some (σ', tr) ∧
    results tr = [returns c state] ∧
    calls tr = [CheckConnectivity] ∧ replies tr = [Ok reply] ∧
    logged tr = [] ∧
    spawned tr =
      match _dbus_thread (nm σ) with
      | Some _ => []
      | None => [length (workers σ)]
      end ∧
    (length (connects tr) ≤ length (spawned tr))%nat ∧
    _state (nm σ') = state ∧
    _state_requested (nm σ') = false ∧ _state_ready (nm σ') = true ∧
    ready_to_serve σ' ∧
    _dbus_thread (nm σ') = Some (serving_worker σ) ∧
    _bus (nm σ') = _bus (nm σ).
Proof.
  intros Hready Hout.
  destruct (serve_prefix_run σ c Hready)
    as (σ1 & tr1 & bus & Hr1 & Hw1 & Hpc1 & Hrq1 & Hth1 & Hb1 & Hres1 & Hc1 &
        Hrep1 & Hl1 & Hsp1 & Hcon1).
  destruct (answer_by_run σ1 _ bus c reply state Hw1 Hpc1 Hrq1 Hout)
    as (σ' & tr2 & Hr2 & _ & Hres2 & Hc2 & Hrep2 & Hsp2 & Hcon2 & Hl2 & Hpc2 &
        Hst & Hrq2 & Hrd2 & Hw2 & _ & Hth2 & Hb2).
  exists σ', (tr1 ++ tr2). unfold serve.
  rewrite app_assoc, run_app, Hr1. cbn -[run answer_by]. rewrite Hr2. simpl.
  rewrite results_app, calls_app, replies_app, logged_app, spawned_app,
    connects_app, Hres1, Hres2, Hc1, Hc2, Hrep1, Hrep2, Hl1, Hl2, Hsp1, Hsp2,
    Hcon2, !app_nil_r.
  split_and!; try done; try congruence.
  split; [done|]. rewrite Hth2, Hth1. by exists bus.
Qed.

(** X8. Whenever the client is outside of any method and the worker waits
    at line 129 or there is no worker (none was started yet, or the last
    one ended on an exception), a call can be served without its wait
    timing out: under the schedule [serve], which starts a worker only if
    there is none, the method returns once, with the state the reply
    decodes to; the worker made one call and logged nothing, the slot holds
    that state, and the program is ready to serve again. *)
Theorem a_call_can_be_served (σ : System) (c : Invocation)
    (reply : DbusMessage) (state : Z) :
  ready_to_serve σ →
  outcome reply = Ok state →
  ∃ σ' tr,
    run (serve σ c (Ok reply)) σ = Some (σ', tr) ∧
    Forall (λ a, a ≠ Timeout) (serve σ c (Ok reply)) ∧
    results tr = [returns c state] ∧
    calls tr = [CheckConnectivity] ∧ logged tr = [] ∧
    spawned tr =
      match _dbus_thread (nm σ) with
      | Some _ => []
      | None => [length (workers σ)]
      end ∧
    _state (nm σ') = state ∧ ready_to_serve σ'.
Proof.
  intros Hready Hout.
  destruct (serve_run σ c reply state Hready Hout)
    as (σ' & tr & Hrun & Hres & Hcalls & _ & Hlog & Hsp & _ & Hst & _ & _ &
        Hready' & _).
  exists σ', tr. split_and!; try done.
  unfold serve, start_worker, answer_by.
  destruct (_dbus_thread (nm σ)); repeat constructor; done.
Qed.

Lemma serve_all_run σ timeout replies states :
  ready_to_serve σ →
  Forall2 (λ reply state, outcome reply = Ok state) replies states →
  ∃ σ' tr,
    run (serve_all σ timeout replies) σ = Some (σ', tr) ∧
    results tr = RState <$> states ∧
    calls tr = replicate (length replies) CheckConnectivity ∧
    logged tr = [] ∧
    (length (spawned tr) ≤
     match _dbus_thread (nm σ) with Some _ => 0 | None => 1 end)%nat ∧
    (length (connects tr) ≤ length (spawned tr))%nat ∧
    ready_to_serve σ'.
Proof.
  intros Hready Hall. revert σ Hready.
  induction Hall as [|reply state replies states Hout Hall IH];
    intros σ Hready.
  - exists σ, []. simpl. split_and!; try done. lia.
  - destruct (serve_run σ (call_get_state timeout) reply state Hready Hout)
      as (σ1 & tr1 & Hrun & Hres & Hcalls & _ & Hlog & Hsp & Hcon & _ & _ &
          _ & Hready1 & Hth1 & _).
    destruct (IH σ1 Hready1)
      as (σ' & tr2 & Hrun2 & Hres2 & Hcalls2 & Hlog2 & Hsp2 & Hcon2 & Hready').
    exists σ', (tr1 ++ tr2). cbn [serve_all]. rewrite Hrun.
    rewrite run_app, Hrun. cbn -[run serve_all]. rewrite Hrun2. simpl.
    rewrite results_app, calls_app, logged_app, spawned_app, connects_app,
      Hres, Hres2, Hcalls, Hcalls2, Hlog, Hlog2, !length_app.
    rewrite Hth1 in Hsp2.
    split_and!; try done.
    + rewrite Hsp. destruct (_dbus_thread (nm σ)); simpl; lia.
    + lia.
Qed.

(** X12. Served calls compose: calls of [get_state] served one after the
    other, the [i]-th answered by a reply that decodes to the [i]-th of
    [states], return exactly [states], in order; the worker made one call
    for each, nothing was logged, and for all the calls together at most
    one thread was started and at most one connection opened. *)
Theorem calls_served_in_a_row (σ : System) (timeout : PyTimeout)
    (replies : list DbusMessage) (states : list Z) :
  ready_to_serve σ →
  Forall2 (λ reply state, outcome reply = Ok state) replies states →
  ∃ σ' tr,
    run (serve_all σ timeout replies) σ = Some (σ', tr) ∧
    results tr = RState <$> states ∧
    length (calls tr) = length replies ∧
    logged tr = [] ∧
    (length (spawned tr) ≤ 1)%nat ∧ (length (connects tr) ≤ 1)%nat ∧
    ready_to_serve σ'.
Proof.
  intros Hready Hall.
  destruct (serve_all_run σ timeout replies states Hready Hall)
    as (σ' & tr & Hrun & Hres & Hcalls & Hlog & Hsp & Hcon & Hready').
  exists σ', tr. rewrite Hcalls, length_replicate.
  assert (match _dbus_thread (nm σ) with Some _ => 0 | None => 1 end ≤ 1)%nat
    by (destruct (_dbus_thread (nm σ)); lia).
  split_and!; try done; lia.
Qed.

(** ** Who writes what *)

(** X6. The shared object has one writer for each of its parts: a
    statement of the client leaves the slot as it is, never lowers the
    request flag, never raises the ready flag and never clears
    [_dbus_thread]; a statement of a worker never raises the request flag,
    never lowers the ready flag, never sets [_dbus_thread] and starts no
    thread; and no statement changes the bus or the address the object was
    built with. *)
Theorem one_writer_each (a : Action) (σ σ' : System) (evs : list Event) :
  step a σ = Some (σ', evs) →
  _bus (nm σ') = _bus (nm σ) ∧
  _dbus_address (nm σ') = _dbus_address (nm σ) ∧
  if client_action a then
    _state (nm σ') = _state (nm σ) ∧
    not_lowered (_state_requested (nm σ)) (_state_requested (nm σ')) ∧
    not_raised (_state_ready (nm σ)) (_state_ready (nm σ')) ∧
    (∀ i, _dbus_thread (nm σ) = Some i → _dbus_thread (nm σ') = Some i)
  else
    not_raised (_state_requested (nm σ)) (_state_requested (nm σ')) ∧
    not_lowered (_state_ready (nm σ)) (_state_ready (nm σ')) ∧
    (∀ i, _dbus_thread (nm σ') = Some i → _dbus_thread (nm σ) = Some i) ∧
    length (workers σ') = length (workers σ).
Proof.
  intros Hs. destruct (config_step _ _ _ _ Hs) as [Hb Ha].
  split; [done|]. split; [done|]. unfold not_raised, not_lowered.
  destruct (step_cases a σ) as [(j & inp & ->)|Hcl].
  - apply step_worker in Hs as (w & self & w' & _ & Hs & ->). simpl.
    rewrite length_insert.
    destruct w, inp as [|[]|[]]; simpl in Hs; try done; case_hyp Hs;
      by simplify_eq.
  - rewrite Hcl in Hs. unfold client_step, blocked_for, _ensure_thread_started in Hs.
    destruct (client σ) as [|c|c|c|c|c waited|c sig], a; try done;
      try destruct (_dbus_thread (nm σ)) eqn:Hth;
      case_hyp Hs; simplify_eq; simpl; split_and!; try done;
      intros; congruence.
Qed.

Lemma one_writer_each_on_a_reset :
  ∃ σ tr σ',
    run (Invoke (call_get_state (TNum DEFAULT_TIMEOUT)) :: request ++
         [Worker 0 (ConnectResult (Ok ())); Worker 0 Go])
        (init None None) = Some (σ, tr) ∧
    step (Worker 0 Go) σ = Some (σ', [EvReset 0]) ∧
    not_raised (_state_requested (nm σ)) (_state_requested (nm σ')) ∧
    not_lowered (_state_ready (nm σ)) (_state_ready (nm σ')).
Proof.
  eexists _, _, _. split; [by_run|]. split; [by_run|].
  match goal with
  | |- not_raised (_state_requested (nm ?s)) (_state_requested (nm ?s')) ∧ _ =>
      destruct (one_writer_each (Worker 0 Go) s s' [EvReset 0]
                  ltac:(by_run))
        as (_ & _ & Hrq & Hrd & _)
  end.
  split; [exact Hrq|exact Hrd].
Defined.

(** ** The worker does nothing unasked *)

(** X7. In a state where nothing is under way (as right after the object
    is built, or after a call was served) no thread can run a statement:
    the only action that can take place is a call of a method, and the
    passing of time changes nothing.  The worker starts nothing by itself,
    and building the object starts no thread. *)
Theorem nothing_runs_unasked (σ : System) (a : Action) :
  quiescent σ → no_call a →
  match a with
  | Elapse _ => ∀ σ' evs, step a σ = Some (σ', evs) → σ' = σ ∧ evs = []
  | _ => step a σ = None
  end.
Proof.
  intros (Hpc & Hrq & Hsolo & Hw) Ha.
  destruct a as [c| | |d|j inp]; [done|..].
  - simpl. unfold client_step. by rewrite Hpc.
  - simpl. unfold client_step. by rewrite Hpc.
  - simpl. unfold client_step. rewrite Hpc. intros σ' evs.
    destruct (Qle_bool 0 d); by intros [= <- <-].
  - simpl. destruct (workers σ !! j) as [w|] eqn:Hj; [|done]. simpl.
    destruct (decide (_dbus_thread (nm σ) = Some j)) as [Ht|Hne].
    + rewrite Ht in Hw. destruct Hw as [bus Hcur].
      unfold cur in Hcur. rewrite Ht in Hcur. simpl in Hcur.
      rewrite Hj in Hcur. simplify_eq. destruct inp; simpl; try done.
      by rewrite Hrq.
    + rewrite (Hsolo _ _ Hne Hj). by destruct inp.
Qed.

Lemma nothing_runs_unasked_after_building :
  quiescent (init None None) ∧ workers (init None None) = [] ∧
  step Client (init None None) = None ∧
  step (Worker 0 Go) (init None None) = None ∧
  ∀ σ' evs, step (Elapse 60) (init None None) = Some (σ', evs) →
            σ' = init None None ∧ evs = [].
Proof.
  split; [apply quiescent_init|]. split; [reflexivity|].
  split_and!.
  - exact (nothing_runs_unasked (init None None) Client
             (quiescent_init None None) I).
  - exact (nothing_runs_unasked (init None None) (Worker 0 Go)
             (quiescent_init None None) I).
  - exact (nothing_runs_unasked (init None None) (Elapse 60)
             (quiescent_init None None) I).
Defined.

(** ** A failed query *)

Lemma no_call_cases sched :
  Forall no_call sched →
  Forall (λ a, no_call a ∧ a ≠ Timeout) sched ∨ In Timeout sched.
Proof.
  induction 1 as [|a sched Ha _ [IH|IH]]; [by left|..].
  - destruct a; try done; try (left; by constructor).
    right. by left.
  - right. by right.
Qed.

Lemma signalled_only_step c a σ σ' evs tr limit :
  wait_mode (timeout_of c) = Block limit →
  signalled_only c σ tr → no_call a → a ≠ Timeout →
  step a σ = Some (σ', evs) →
  signalled_only c σ' (tr ++ evs).
Proof.
  intros Hm Hinv Ha Hto Hs. unfold signalled_only in *.
  rewrite waits_app.
  destruct (step_cases a σ) as [(j & inp & ->)|Hcl].
  - apply step_worker in Hs as (w & self & w' & _ & Hw & ->). simpl.
    by rewrite (worker_step_waits _ _ _ _ _ _ _ Hw), app_nil_r.
  - rewrite Hcl in Hs.
    unfold client_step, blocked_for, _ensure_thread_started in Hs.
    destruct (client σ) as [|c'|c'|c'|c'|c' waited|c' sig] eqn:Hpc, a;
      try done; try destruct (_dbus_thread (nm σ)); case_hyp Hs;
      simplify_eq; simpl; rewrite ?Hpc;
      repeat match goal with H : _ ∧ _ |- _ => destruct H end;
      simplify_eq;
      repeat match goal with H : waits _ = _ |- _ => rewrite H end;
      try done; congruence.
Qed.

Lemma signalled_only_run c sched σ σ' tr0 tr limit :
  wait_mode (timeout_of c) = Block limit →
  signalled_only c σ tr0 →
  Forall (λ a, no_call a ∧ a ≠ Timeout) sched →
  run sched σ = Some (σ', tr) →
  signalled_only c σ' (tr0 ++ tr).
Proof.
  intros Hm. revert σ tr0 tr.
  induction sched as [|a sched IH]; intros σ tr0 tr Hinv Hok.
  - intros [= <- <-]. by rewrite app_nil_r.
  - intros (σ1 & evs & tr' & Hs & Hr & ->)%run_cons.
    apply Forall_cons in Hok as [[Ha Hto] Hok].
    rewrite app_assoc. eapply IH; [|done|done].
    by eapply signalled_only_step.
Qed.

(** X9. A query that fails is never signalled: when a method is called
    with nothing under way, no other call follows, and the worker's call
    raises, or is answered by a reply that does not decode, [wait] does
    not return [True] to the method; and when the timeout is one on which
    [wait] blocks, the method can only return through a timeout of its
    wait. *)
Theorem failed_query_returns_by_timeout (c : Invocation)
    (sched : list Action) (σ σ' : System) (tr : list Event) (i : nat)
    (r : result DbusMessage) :
  quiescent σ →
  Forall no_call sched →
  run (Invoke c :: sched) σ = Some (σ', tr) →
  In (EvReply i r) tr →
  failed_answer r →
  client σ' = CIdle →
  waits tr ≠ [true] ∧
  (∀ limit, wait_mode (timeout_of c) = Block limit → In Timeout sched).
Proof.
  intros Hq Hnc Hr Hin Hfail Hpc.
  assert (waits tr ≠ [true]) as Hns.
  { intros Hsig.
    destruct (clean_handshake _ _ _ _ _ Hq Hnc Hr Hpc Hsig)
      as (reply & Hrep & _ & Hout & _).
    assert (r ∈ replies tr) as Hr'.
    { unfold replies. apply list_elem_of_omap. exists (EvReply i r).
      split; [by apply list_elem_of_In|done]. }
    rewrite Hrep in Hr'. apply list_elem_of_singleton in Hr' as ->.
    destruct Hfail as [e He]. unfold outcome in Hout. by rewrite He in Hout. }
  split; [done|]. intros limit Hm.
  destruct (no_call_cases sched Hnc) as [Hok|Ht]; [|done].
  destruct Hns.
  apply run_cons in Hr as (σ1 & evs & tr' & Hs & Hr & ->).
  assert (σ1 = at_pc (CEnsure c) σ ∧ evs = []) as [-> ->].
  { destruct Hq as [Hq _]. simpl in Hs. unfold client_step in Hs.
    rewrite Hq in Hs. by simplify_eq. }
  assert (signalled_only c (at_pc (CEnsure c) σ) []) as Hinit by done.
  pose proof (signalled_only_run c _ _ _ [] _ _ Hm Hinit Hok Hr) as Hinv.
  unfold signalled_only in Hinv. by rewrite Hpc in Hinv.
Qed.

Lemma failed_query_returns_by_timeout_malformed :
  ∃ σ' tr,
    run (malformed_reply_run ++ time_out) (init None None) =
      Some (σ', tr) ∧
    In (EvReply 0 (Ok (reply_of METHOD_RETURN [PyInt 7]))) tr ∧
    client σ' = CIdle ∧
    waits tr ≠ [true] ∧
    In Timeout (request ++ to_the_call ++
                [Worker 0 (CallResult (Ok (reply_of METHOD_RETURN [PyInt 7])));
                 Worker 0 Go; Worker 0 Go; Worker 0 Go] ++ time_out).
Proof.
  run_exists as σ' tr Hrun.
  assert (In (EvReply 0 (Ok (reply_of METHOD_RETURN [PyInt 7]))) tr) as Hin.
  { simpl. auto 10. }
  split; [exact Hin|]. split; [reflexivity|].
  destruct (failed_query_returns_by_timeout
              (call_get_state (TNum DEFAULT_TIMEOUT))
              (request ++ to_the_call ++
               [Worker 0 (CallResult (Ok (reply_of METHOD_RETURN [PyInt 7])));
                Worker 0 Go; Worker 0 Go; Worker 0 Go] ++ time_out)
              (init None None) σ' tr 0
              (Ok (reply_of METHOD_RETURN [PyInt 7]))
              (quiescent_init None None) ltac:(repeat constructor) Hrun Hin
              (ex_intro _ ValueError eq_refl) eq_refl) as [Hns Hto].
  split; [exact Hns|]. exact (Hto (Some DEFAULT_TIMEOUT) eq_refl).
Defined.

(** ** The plugin and the methods agree *)

Lemma first_result_In tr r :
  first_result tr = Some r → ∃ c, In (EvReturn c r) tr.
Proof.
  induction tr as [|e tr IH]; [done|].
  destruct e; simpl; try (intros [c Hin]%IH; exists c; by right).
  intros [= ->]. eexists. by left.
Qed.

(** The state that a first call of [get_state] returns in a run from a
    state the program reaches is a member. *)
Lemma first_state_member dbus_address bus sched0 σ tr0 c sched σ' tr state :
  run sched0 (init dbus_address bus) = Some (σ, tr0) →
  run (Invoke c :: sched) σ = Some (σ', tr) →
  first_result tr = Some (RState state) →
  ∃ s, state = value s.
Proof.
  intros Hr0 Hr Hres.
  destruct (consistent_run _ _ _ _ (consistent_init dbus_address bus) Hr0)
    as [Hc _].
  destruct (consistent_run _ _ _ _ Hc Hr) as [_ Hev].
  apply first_result_In in Hres as [c' Hin%list_elem_of_In].
  rewrite Forall_forall in Hev. by apply Hev in Hin.
Qed.

(** X10. The plugin and the two boolean methods agree: called in one
    state that the program reaches and run under one schedule,
    [handle_check] and the methods [is_internet_connected] and
    [is_network_connected] with the default timeout return together, and
    the notifications of [handle_check] are the two "connected" ones when
    [is_internet_connected] returns [True], the "network connected" one
    when it returns [False] and [is_network_connected] returns [True], and
    the "disconnected" one with the alert when both return [False].  The
    comparison [state > NONE] of line 167 and the set of lines 73-77 select
    the same states, since the state is always a member. *)
Theorem handle_check_agrees_with_methods (dbus_address : option string)
    (bus : option DbusMessageBus) (sched0 : list Action) (σ : System)
    (tr0 : list Event) (self : NetworkManagerEvents) (message : Message)
    (sched : list Action) :
  run sched0 (init dbus_address bus) = Some (σ, tr0) →
  match run (Invoke (call_handle_check self message) :: sched) σ,
        run (Invoke (call_is_internet_connected (TNum DEFAULT_TIMEOUT))
               :: sched) σ,
        run (Invoke (call_is_network_connected (TNum DEFAULT_TIMEOUT))
               :: sched) σ with
  | Some (_, tr1), Some (_, tr2), Some (_, tr3) =>
      match first_result tr1, first_result tr2, first_result tr3 with
      | Some r1, Some r2, Some r3 =>
          ∃ internet network,
            r2 = RBool internet ∧ r3 = RBool network ∧
            r1 = RNone (notifications message internet network ++
                        [Sleep (sleep_time self); Emit message])
      | None, None, None => True
      | _, _, _ => False
      end
  | None, None, None => True
  | _, _, _ => False
  end.
Proof.
  intros Hr0.
  pose proof (method_of_get_state (call_handle_check self message) sched σ)
    as H1.
  pose proof (method_of_get_state
                (call_is_internet_connected (TNum DEFAULT_TIMEOUT)) sched σ)
    as H2.
  pose proof (method_of_get_state
                (call_is_network_connected (TNum DEFAULT_TIMEOUT)) sched σ)
    as H3.
  cbn [timeout_of] in H1, H2, H3.
  destruct (run (Invoke (call_get_state (TNum DEFAULT_TIMEOUT)) :: sched) σ)
    as [[σg trg]|] eqn:Hg;
    destruct (run (Invoke (call_handle_check self message) :: sched) σ)
      as [[σ1 tr1]|];
    destruct (run (Invoke (call_is_internet_connected
                             (TNum DEFAULT_TIMEOUT)) :: sched) σ)
      as [[σ2 tr2]|];
    destruct (run (Invoke (call_is_network_connected
                             (TNum DEFAULT_TIMEOUT)) :: sched) σ)
      as [[σ3 tr3]|]; try done.
  destruct (first_result trg) as [rg|] eqn:Hrg;
    destruct (first_result tr1) as [r1|];
    destruct (first_result tr2) as [r2|];
    destruct (first_result tr3) as [r3|]; try done.
  destruct H1 as [(state & -> & ->)|(e & Hm & _)]; [|done].
  destruct H2 as [(? & [= <-] & ->)|(e & Hm & _)]; [|done].
  destruct H3 as [(? & [= <-] & ->)|(e & Hm & _)]; [|done].
  destruct (first_state_member _ _ _ _ _ _ _ _ _ _ Hr0 Hg Hrg) as [s ->].
  exists (is_internet_connected (value s)), (is_network_connected (value s)).
  split; [done|]. split; [done|]. by destruct s.
Qed.

Lemma handle_check_agrees_with_methods_on_portal :
  run [] (init None None) = Some (init None None, []) ∧
  ∃ σ1 tr1 σ2 tr2 σ3 tr3,
    run (Invoke (call_handle_check {| sleep_time := 60 |}
                   {| msg_type := "ovos.phal.internet_check";
                      context := [] |}) ::
         request ++ to_the_call ++
         answer (Ok (reply_of METHOD_RETURN [PyInt 2])))
        (init None None) = Some (σ1, tr1) ∧
    run (Invoke (call_is_internet_connected (TNum DEFAULT_TIMEOUT)) ::
         request ++ to_the_call ++
         answer (Ok (reply_of METHOD_RETURN [PyInt 2])))
        (init None None) = Some (σ2, tr2) ∧
    run (Invoke (call_is_network_connected (TNum DEFAULT_TIMEOUT)) ::
         request ++ to_the_call ++
         answer (Ok (reply_of METHOD_RETURN [PyInt 2])))
        (init None None) = Some (σ3, tr3) ∧
    first_result tr2 = Some (RBool false) ∧
    first_result tr3 = Some (RBool true) ∧
    first_result tr1 =
      Some (RNone
              [Emit {| msg_type := "ovos.phal.connectivity.network.connected";
                       context := [] |};
               Sleep 60;
               Emit {| msg_type := "ovos.phal.internet_check";
                       context := [] |}]).
Proof.
  split; [reflexivity|].
  pose proof (handle_check_agrees_with_methods None None [] _ []
                {| sleep_time := 60 |}
                {| msg_type := "ovos.phal.internet_check"; context := [] |}
                (request ++ to_the_call ++
                 answer (Ok (reply_of METHOD_RETURN [PyInt 2]))) eq_refl)
    as H.
  destruct (run (Invoke (call_handle_check _ _) :: _) _)
    as [[σ1 tr1]|] eqn:H1; [|discriminate H1].
  destruct (run (Invoke (call_is_internet_connected _) :: _) _)
    as [[σ2 tr2]|] eqn:H2; [|discriminate H2].
  destruct (run (Invoke (call_is_network_connected _) :: _) _)
    as [[σ3 tr3]|] eqn:H3; [|discriminate H3].
  exists σ1, tr1, σ2, tr2, σ3, tr3. do 3 (split; [reflexivity|]).
  injection H2 as _ <-. injection H3 as _ <-.
  split; [reflexivity|]. split; [reflexivity|].
  destruct (first_result tr1) as [r1|]; [|destruct H].
  destruct H as (internet & network & [= <-] & [= <-] & ->). reflexivity.
Defined.

(** ** A signalled wait is no promise of a fresh state *)

(** X11. The ready flag is no promise that the slot still holds what the
    worker stored: for every reply that decodes to a state, there is a run
    in which the bus answers the one call with that reply, the worker
    stores the state, [get_state] leaves its wait signalled, and yet
    returns UNKNOWN, because the worker, finding the request flag of that
    very call up, has reset the slot before the client read it. *)
Theorem signalled_wait_can_return_unknown (reply : DbusMessage)
    (s : ConnectivityState) :
  decode reply = Ok (Some s) →
  ∃ σ tr σ',
    run (late_answer reply) (init None None) = Some (σ, tr) ∧
    client σ = CReturn (call_get_state (TNum DEFAULT_TIMEOUT)) true ∧
    replies tr = [Ok reply] ∧ stores tr = [value s] ∧
    _state (nm σ) = value s ∧
    run reset_before_read σ =
      Some (σ', [EvRequest 0; EvReset 0;
                 EvReturn (call_get_state (TNum DEFAULT_TIMEOUT))
                   (RState (value UNKNOWN))]).
Proof.
  intros Hd. unfold late_answer, reset_before_read. eexists _, _, _.
  split.
  { client_go. client_go. client_go. client_go.
    erewrite run_worker_at; [|reflexivity|reflexivity].
    worker_next. client_go. client_go. client_go. client_go.
    client_go. client_go. client_go.
    worker_next. worker_next. worker_next by rewrite Hd. worker_next.
    client_go. worker_next. client_go.
    reflexivity. }
  simpl. split_and!; try done.
Qed.

Lemma signalled_wait_can_return_unknown_full :
  decode (reply_of METHOD_RETURN [PyInt 4]) = Ok (Some FULL) ∧
  ∃ σ tr σ',
    run (late_answer (reply_of METHOD_RETURN [PyInt 4])) (init None None) =
      Some (σ, tr) ∧
    client σ = CReturn (call_get_state (TNum DEFAULT_TIMEOUT)) true ∧
    replies tr = [Ok (reply_of METHOD_RETURN [PyInt 4])] ∧
    stores tr = [value FULL] ∧
    _state (nm σ) = value FULL ∧
    run reset_before_read σ =
      Some (σ', [EvRequest 0; EvReset 0;
                 EvReturn (call_get_state (TNum DEFAULT_TIMEOUT))
                   (RState (value UNKNOWN))]).
Proof.
  split; [reflexivity|].
  exact (signalled_wait_can_return_unknown
           (reply_of METHOD_RETURN [PyInt 4]) FULL eq_refl).
Defined.

(** ** The further properties on concrete runs *)

(** X3 after a failure and a restart with an injected bus. *)
Lemma at_most_one_worker_alive_after_restart :
  ∃ σ tr,
    run injected_bus_restart_run (init None (Some injected_bus)) =
      Some (σ, tr) ∧
    workers σ = [WDone; WWait injected_bus] ∧
    ∀ i, _dbus_thread (nm σ) = Some i ↔
         ∃ w, workers σ !! i = Some w ∧ w ≠ WDone.
Proof.
  run_exists as σ tr Hrun. split; [reflexivity|].
  exact (proj2 (at_most_one_worker_alive None (Some injected_bus) _ _ _ Hrun)).
Defined.

(** X4 on the same run: two threads, one logged exception, no
    connection. *)
Lemma threads_and_connections_accounted_after_restart :
  ∃ σ tr,
    run injected_bus_restart_run (init None (Some injected_bus)) =
      Some (σ, tr) ∧
    spawned tr = [0; 1]%nat ∧ length (logged tr) = 1%nat ∧
    connects tr = [] ∧
    spawned tr = seq 0 (length (workers σ)) ∧
    (length (spawned tr) ≤ S (length (logged tr)))%nat ∧
    (length (connects tr) ≤ length (spawned tr))%nat.
Proof.
  run_exists as σ tr Hrun. do 3 (split; [reflexivity|]).
  destruct (threads_and_connections_accounted None (Some injected_bus)
              _ _ _ Hrun) as (H1 & H2 & H3 & _).
  repeat split; assumption.
Defined.

(** X5 for an object built with the empty string as address: the call
    goes to the system bus. *)
Lemma one_bus_for_life_empty_address :
  ∃ σ tr,
    run (first_call (Ok (reply_of METHOD_RETURN [PyInt 4])))
        (init (Some "") None) = Some (σ, tr) ∧
    calls tr = [CheckConnectivity] ∧
    ∀ i bus' m, In (EvCall i bus' m) tr →
                bus' = {| bus_address := None; bus_type := SYSTEM |}.
Proof.
  run_exists as σ tr Hrun. split; [reflexivity|].
  destruct (one_bus_for_life (Some "") None _ _ _ Hrun) as (H & _ & _ & Heq).
  intros i bus' m Hin. rewrite (H i bus' m Hin). exact Heq.
Defined.

(** X8 after a connection that could not be made: the next call starts a
    second worker and returns FULL. *)
Lemma a_call_can_be_served_after_failed_connect :
  ∃ σ tr,
    run failed_connect_run (init None None) = Some (σ, tr) ∧
    ready_to_serve σ ∧
    outcome (reply_of METHOD_RETURN [PyInt 4]) = Ok (value FULL) ∧
    ∃ σ' tr',
      run (serve σ (call_get_state (TNum DEFAULT_TIMEOUT))
             (Ok (reply_of METHOD_RETURN [PyInt 4]))) σ = Some (σ', tr') ∧
      results tr' = [RState (value FULL)] ∧
      spawned tr' = [1%nat] ∧ _state (nm σ') = value FULL.
Proof.
  run_exists as σ tr Hrun.
  assert (ready_to_serve σ) as Hready by (split; [reflexivity|exact I]).
  split; [exact Hready|]. split; [reflexivity|].
  destruct (a_call_can_be_served σ (call_get_state (TNum DEFAULT_TIMEOUT))
              (reply_of METHOD_RETURN [PyInt 4]) (value FULL) Hready eq_refl)
    as (σ' & tr' & Hrun' & _ & Hres & _ & _ & Hsp & Hst & _).
  exists σ', tr'. repeat split; assumption.
Defined.

(** X12 on three calls answered FULL, an error and PORTAL. *)
Lemma calls_served_in_a_row_three :
  ready_to_serve (init None None) ∧
  Forall2 (λ reply state, outcome reply = Ok state)
    [reply_of METHOD_RETURN [PyInt 4]; reply_of ERROR [];
     reply_of METHOD_RETURN [PyInt 2]]
    [value FULL; value UNKNOWN; value PORTAL] ∧
  ∃ σ' tr,
    run (serve_all (init None None) (TNum DEFAULT_TIMEOUT)
           [reply_of METHOD_RETURN [PyInt 4]; reply_of ERROR [];
            reply_of METHOD_RETURN [PyInt 2]]) (init None None) =
      Some (σ', tr) ∧
    results tr =
      [RState (value FULL); RState (value UNKNOWN); RState (value PORTAL)] ∧
    length (calls tr) = 3%nat ∧
    (length (spawned tr) ≤ 1)%nat ∧ (length (connects tr) ≤ 1)%nat.
Proof.
  assert (ready_to_serve (init None None)) as Hready
    by (split; [reflexivity|exact I]).
  assert (Forall2 (λ reply state, outcome reply = Ok state)
            [reply_of METHOD_RETURN [PyInt 4]; reply_of ERROR [];
             reply_of METHOD_RETURN [PyInt 2]]
            [value FULL; value UNKNOWN; value PORTAL]) as Hall
    by (repeat constructor).
  split; [exact Hready|]. split; [exact Hall|].
  destruct (calls_served_in_a_row (init None None) (TNum DEFAULT_TIMEOUT) _ _
              Hready Hall)
    as (σ' & tr & Hrun & Hres & Hcalls & _ & Hsp & Hcon & _).
  exists σ', tr. repeat split; assumption.
Defined.
